(** * strongSwan: IMV attestation state and the charon transaction factory

    A shallow embedding of
      - [src/libimcv/plugins/imv_attestation/imv_attestation_state.c]
      - [src/charon/sa/transactions/transaction.c]
    C objects become records, methods become functions that take the object
    and return its successor together with the C return value and the
    values left in the output parameters.  Fixed-width integers are [Z]
    with the wrap-around written out. *)

From Stdlib Require Import ZArith List Bool Ascii String Lia Arith Sorted.
Import ListNotations.
Open Scope Z_scope.

(* ================================================================== *)
(** * Chunks and the lexparser helpers                                 *)
(* ================================================================== *)

Module Lexparser.

(** Modelled from the spec: [chunk_t] and its functions (utils/chunk) are
    not among the source files.  A chunk is a pointer with a length: the
    bytes it spans.  Spec 4.2: the input is "a single string", tags and
    reason strings are strings, and step 3 compares "for an exact
    (case-sensitive ...) match". *)
Definition chunk_t := list ascii.

Definition chunk_empty : chunk_t := [].

(** [chunk_create(ptr, strlen(ptr))] on a C string literal: its bytes. *)
Definition chunk_create (s : string) : chunk_t := list_ascii_of_string s.

(** [chunk_equals]: same length and same bytes. *)
Fixpoint chunk_equals (a b : chunk_t) : bool :=
  match a, b with
  | [], [] => true
  | x :: a', y :: b' => Ascii.eqb x y && chunk_equals a' b'
  | _, _ => false
  end.

Definition SPACE : ascii := " "%char.
Definition TAB : ascii := "009"%char.
Definition COMMA : ascii := ","%char.

Definition is_whitespace (c : ascii) : bool :=
  Ascii.eqb c SPACE || Ascii.eqb c TAB.

(** Every byte of the chunk is a blank or a tab. *)
Definition all_whitespace (ws : chunk_t) : Prop :=
  Forall (fun c => is_whitespace c = true) ws.

(** The pointer of [src] advanced over blanks and tabs. *)
Fixpoint skip_whitespace (src : chunk_t) : chunk_t :=
  match src with
  | c :: rest => if is_whitespace c then skip_whitespace rest else src
  | [] => []
  end.

(** Modelled from the spec: [eat_whitespace] of utils/lexparser, which is
    not among the source files.  Spec 4.2 step 2 "skip leading whitespace"
    and step 4 "if the input is exhausted": the chunk is advanced past its
    leading whitespace and the result tells whether input is left.  The
    pair is the C return value and the chunk left in [*src]. *)
Definition eat_whitespace (src : chunk_t) : bool * chunk_t :=
  let src' := skip_whitespace src in
  (negb (Nat.eqb (List.length src') 0), src').

(** [memchr]: the offset of the first [termination] byte, if there is one. *)
Fixpoint memchr (termination : ascii) (src : chunk_t) : option nat :=
  match src with
  | [] => None
  | c :: rest =>
      if Ascii.eqb c termination then Some O
      else option_map S (memchr termination rest)
  end.

(** Modelled from the spec: [extract_token] of utils/lexparser, which is
    not among the source files.  Spec 4.2 step 2 "extract the next
    comma-delimited token (or, if no comma remains, the rest of the string
    as the final token)": when the separator occurs, the token is what
    precedes its first occurrence and [*src] moves behind it; when it does
    not occur the call fails and [*src] still holds the rest of the string,
    which is what the caller then takes as the final token.  The triple is
    the C return value, [*token] and [*src]. *)
Definition extract_token (termination : ascii) (src : chunk_t)
  : bool * chunk_t * chunk_t :=
  match memchr termination src with
  | None => (false, chunk_empty, src)
  | Some eot => (true, firstn eot src, skipn (S eot) src)
  end.

End Lexparser.

(* ================================================================== *)
(** * imv_attestation_state.c                                          *)
(* ================================================================== *)

Module ImvAttestationState.
Import Lexparser.

(** [u_int16_t] arithmetic: the counter lives modulo 2^16. *)
Definition UINT16_MODULUS : Z := 65536.
Definition u_int16 (z : Z) : Z := z mod UINT16_MODULUS.

(** PTS File/Directory Measurement request entry. *)
Record file_meas_request_t := mk_file_meas_request {
  id : Z;            (* u_int16_t *)
  file_id : Z;       (* int *)
  is_dir : bool
}.

(** Modelled from the spec: [pts_qualifier_t] is declared in a header
    that is not among the source files.  Spec 3 "qualifier: {kernel,
    sub_component, type}"; the three fields, which the code compares with
    [==], are kept as integers. *)
Record pts_qualifier_t := mk_pts_qualifier {
  kernel : Z;
  sub_component : Z;
  type : Z
}.

(** Functional Component Evidence Request entry. *)
Record comp_evid_request_t := mk_comp_evid_request {
  vendor_id : Z;                  (* u_int32_t *)
  qualifier : pts_qualifier_t;
  name : Z                        (* enum pts_ita_funct_comp_name_t *)
}.

(** Modelled from the spec: the PTS object behind the [pts_t*] handle is
    not among the source files.  Spec 4.1 [create]: "a fresh
    measurement-engine handle (optionally pre-configured from an externally
    supplied platform-info string; if absent, the engine is created with
    default platform info)".  Only what this file does with the object is
    kept: the argument of [pts_create] and the platform info set. *)
Record pts_t := mk_pts {
  pts_is_imc : bool;
  pts_platform_info : option string
}.

Definition pts_create (is_imc : bool) : pts_t := mk_pts is_imc None.

Definition pts_set_platform_info (p : pts_t) (info : string) : pts_t :=
  mk_pts (pts_is_imc p) (Some info).

(** Modelled from the spec: the enumerations of the TNC IF-IMV and IMV
    attestation headers are not among the source files.  They are kept as
    integer codes; spec 4.1 [create]: "phase = initial, recommendation =
    no recommendation, evaluation = unknown".  The codes of the four
    constants below are those of the TNC IF-IMV specification; no property
    proved here depends on them. *)
Definition TNC_ConnectionID := Z.
Definition TNC_ConnectionState := Z.
Definition TNC_IMV_Action_Recommendation := Z.
Definition TNC_IMV_Evaluation_Result := Z.
Definition imv_attestation_handshake_state_t := Z.

Definition TNC_CONNECTION_STATE_CREATE : TNC_ConnectionState := 0.
Definition IMV_ATTESTATION_STATE_INIT : imv_attestation_handshake_state_t := 0.
Definition TNC_IMV_ACTION_RECOMMENDATION_NO_RECOMMENDATION
  : TNC_IMV_Action_Recommendation := 3.
Definition TNC_IMV_EVALUATION_RESULT_DONT_KNOW
  : TNC_IMV_Evaluation_Result := 4.

(** Private data of an [imv_attestation_state_t] object.  The two
    [linked_list_t] members are the lists of their entries, in list order. *)
Record private_imv_attestation_state_t := mk_state {
  connection_id : TNC_ConnectionID;
  state : TNC_ConnectionState;
  handshake_state : imv_attestation_handshake_state_t;
  rec : TNC_IMV_Action_Recommendation;
  eval : TNC_IMV_Evaluation_Result;
  file_meas_request_counter : Z;                   (* u_int16_t *)
  file_meas_requests : list file_meas_request_t;
  comp_evid_requests : list comp_evid_request_t;
  pts : pts_t;
  measurement_error : bool
}.

(** Define an internal reason string entry.  The C field [string] is
    [string_] here, next to the type of that name. *)
Record entry_t := mk_entry {
  lang : string;
  string_ : string
}.

(** Table of multi-lingual reason string entries. *)
Definition reasons : list entry_t := [
  mk_entry "en" "IMV Attestation: Non-matching file measurement/s or invalid TPM Quote signature";
  mk_entry "mn" "IMV Attestation: Файлуудын хэмжилт зөрсөн эсвэл буруу TPM Quote гарын үсэг";
  mk_entry "de" "IMV Attestation: Falsche Datei Messung/en oder TPM Quote Unterschrift ist ungültig"
].

Definition reasons_0 : entry_t := nth 0%nat reasons (mk_entry "" "").

Definition get_connection_id (this : private_imv_attestation_state_t)
  : TNC_ConnectionID := connection_id this.

Definition change_state (this : private_imv_attestation_state_t)
    (new_state : TNC_ConnectionState) : private_imv_attestation_state_t :=
  mk_state (connection_id this) new_state (handshake_state this) (rec this)
    (eval this) (file_meas_request_counter this) (file_meas_requests this)
    (comp_evid_requests this) (pts this) (measurement_error this).

(** The pair is what is left in [*rec] and [*eval]. *)
Definition get_recommendation (this : private_imv_attestation_state_t)
  : TNC_IMV_Action_Recommendation * TNC_IMV_Evaluation_Result :=
  (rec this, eval this).

Definition set_recommendation (this : private_imv_attestation_state_t)
    (rec' : TNC_IMV_Action_Recommendation) (eval' : TNC_IMV_Evaluation_Result)
  : private_imv_attestation_state_t :=
  mk_state (connection_id this) (state this) (handshake_state this) rec'
    eval' (file_meas_request_counter this) (file_meas_requests this)
    (comp_evid_requests this) (pts this) (measurement_error this).

(** ** get_reason_string *)

(** The trailing-blank loop
    [pos = ptr + len - 1; while (len && *pos-- == ' ') len--;]
    as the length it leaves, [ptr] being the bytes of the token. *)
Fixpoint eat_trailing (ptr : chunk_t) (len : nat) : nat :=
  match len with
  | O => O
  | S len' =>
      if Ascii.eqb (nth len' ptr Ascii.zero) SPACE
      then eat_trailing ptr len'
      else len
  end.

Definition trim_trailing (pref_lang : chunk_t) : chunk_t :=
  firstn (eat_trailing pref_lang (List.length pref_lang)) pref_lang.

(** The [for] loop over the table: the first entry whose tag equals the
    token, as the pair left in [*reason_string] and [*reason_language]. *)
Fixpoint find_reason (table : list entry_t) (pref_lang : chunk_t)
  : option (chunk_t * chunk_t) :=
  match table with
  | [] => None
  | e :: table' =>
      let lang := chunk_create (lang e) in
      if chunk_equals lang pref_lang
      then Some (chunk_create (string_ e), lang)
      else find_reason table' pref_lang
  end.

(** What one evaluation of the [while] condition and body does. *)
Inductive iteration :=
| Return (reason_string reason_language : chunk_t)  (* return TRUE in the body *)
| Continue (preferred_language : chunk_t)           (* back to the condition *)
| Break.                                            (* the condition is false *)

Definition loop_body (preferred_language : chunk_t) : iteration :=
  let '(more, preferred_language) := eat_whitespace preferred_language in
  if more then
    let '(ok, token, preferred_language) :=
      extract_token COMMA preferred_language in
    (* last entry in a comma-separated list or single entry *)
    let pref_lang := if ok then token else preferred_language in
    (* eat trailing whitespace *)
    let pref_lang := trim_trailing pref_lang in
    match find_reason reasons pref_lang with
    | Some (reason_string, reason_language) =>
        Return reason_string reason_language
    | None => Continue preferred_language
    end
  else Break.

(** The result of a call that returned: the C return value and the two
    output chunks. *)
Record reason_result := mk_reason_result {
  returned : bool;
  reason_string : chunk_t;
  reason_language : chunk_t
}.

(** [get_reason_string], the loop unrolled at most [fuel] times.  [None]
    says that the loop is still running after [fuel] evaluations of its
    condition; [this] is not read. *)
Fixpoint get_reason_string (fuel : nat) (this : private_imv_attestation_state_t)
    (preferred_language : chunk_t) : option reason_result :=
  match fuel with
  | O => None
  | S fuel' =>
      match loop_body preferred_language with
      | Return reason_string reason_language =>
          Some (mk_reason_result true reason_string reason_language)
      | Continue preferred_language' =>
          get_reason_string fuel' this preferred_language'
      | Break =>
          (* no preferred language match found - use the default language *)
          Some (mk_reason_result true
                  (chunk_create (string_ reasons_0))
                  (chunk_create (lang reasons_0)))
      end
  end.

(** The same loop as a relation: the call on this input returns this. *)
Inductive reason_string_returns
  : chunk_t -> reason_result -> Prop :=
| returns_match : forall pl s l,
    loop_body pl = Return s l ->
    reason_string_returns pl (mk_reason_result true s l)
| returns_default : forall pl,
    loop_body pl = Break ->
    reason_string_returns pl
      (mk_reason_result true (chunk_create (string_ reasons_0))
         (chunk_create (lang reasons_0)))
| returns_next : forall pl pl' r,
    loop_body pl = Continue pl' ->
    reason_string_returns pl' r ->
    reason_string_returns pl r.

(** The result for the table entry [e]. *)
Definition reason_of (e : entry_t) : reason_result :=
  mk_reason_result true (chunk_create (string_ e)) (chunk_create (lang e)).

(** ** Handshake state and PTS handle *)

Definition get_handshake_state (this : private_imv_attestation_state_t)
  : imv_attestation_handshake_state_t := handshake_state this.

Definition set_handshake_state (this : private_imv_attestation_state_t)
    (new_state : imv_attestation_handshake_state_t)
  : private_imv_attestation_state_t :=
  mk_state (connection_id this) (state this) new_state (rec this)
    (eval this) (file_meas_request_counter this) (file_meas_requests this)
    (comp_evid_requests this) (pts this) (measurement_error this).

Definition get_pts (this : private_imv_attestation_state_t) : pts_t :=
  pts this.

(** ** The two request lists *)

(** Modelled from the spec: [linked_list_t] (utils/linked_list) is not
    among the source files.  Spec 3 "ordered collection", 4.1 "inserts the
    entry at the end of the collection", "scans the collection for the
    first entry with matching id; if found, removes it", "current pending
    count": a list, [insert_last] appends, [get_count] is the length, an
    enumerator visits the entries from the first on and [remove_at]
    unlinks the one it stands on. *)
Definition insert_last {A} (l : list A) (item : A) : list A := l ++ [item].
Definition get_count {A} (l : list A) : Z := Z.of_nat (List.length l).

(** The pair is the returned id and the object after the call. *)
Definition add_file_meas_request (this : private_imv_attestation_state_t)
    (file_id : Z) (is_dir : bool) : Z * private_imv_attestation_state_t :=
  let counter := u_int16 (file_meas_request_counter this + 1) in
  let request := mk_file_meas_request counter file_id is_dir in
  (counter,
   mk_state (connection_id this) (state this) (handshake_state this)
     (rec this) (eval this) counter
     (insert_last (file_meas_requests this) request)
     (comp_evid_requests this) (pts this) (measurement_error this)).

(** The result of [check_off_file_meas_request]: the C return value and
    what the two output parameters hold after the call. *)
Record check_off_result := mk_check_off_result {
  found : bool;
  out_file_id : Z;
  out_is_dir : bool
}.

(** The enumeration: the entries from the first on, stopping at the first
    whose id matches, which is removed.  [file_id] and [is_dir] are what
    the output parameters held before the call. *)
Fixpoint check_off_file_enumerate (requests : list file_meas_request_t)
    (id0 : Z) (file_id0 : Z) (is_dir0 : bool)
  : check_off_result * list file_meas_request_t :=
  match requests with
  | [] => (mk_check_off_result false file_id0 is_dir0, [])
  | request :: rest =>
      if id request =? id0
      then (mk_check_off_result true (file_id request) (is_dir request), rest)
      else
        let '(r, rest') := check_off_file_enumerate rest id0 file_id0 is_dir0 in
        (r, request :: rest')
  end.

Definition check_off_file_meas_request (this : private_imv_attestation_state_t)
    (id0 : Z) (file_id0 : Z) (is_dir0 : bool)
  : check_off_result * private_imv_attestation_state_t :=
  let '(r, requests) :=
    check_off_file_enumerate (file_meas_requests this) id0 file_id0 is_dir0 in
  (r,
   mk_state (connection_id this) (state this) (handshake_state this)
     (rec this) (eval this) (file_meas_request_counter this) requests
     (comp_evid_requests this) (pts this) (measurement_error this)).

Definition get_file_meas_request_count (this : private_imv_attestation_state_t)
  : Z := get_count (file_meas_requests this).

Definition add_comp_evid_request (this : private_imv_attestation_state_t)
    (vendor_id : Z) (qualifier : pts_qualifier_t) (comp_name : Z)
  : private_imv_attestation_state_t :=
  let request := mk_comp_evid_request vendor_id qualifier comp_name in
  mk_state (connection_id this) (state this) (handshake_state this)
    (rec this) (eval this) (file_meas_request_counter this)
    (file_meas_requests this)
    (insert_last (comp_evid_requests this) request)
    (pts this) (measurement_error this).

(** The condition of the [if] in [check_off_comp_evid_request]. *)
Definition comp_evid_matches (request : comp_evid_request_t)
    (vendor_id0 : Z) (qualifier0 : pts_qualifier_t) (comp_name : Z) : bool :=
  (vendor_id request =? vendor_id0) &&
  (kernel (qualifier request) =? kernel qualifier0) &&
  (sub_component (qualifier request) =? sub_component qualifier0) &&
  (type (qualifier request) =? type qualifier0) &&
  (name request =? comp_name).

Fixpoint check_off_comp_enumerate (requests : list comp_evid_request_t)
    (vendor_id0 : Z) (qualifier0 : pts_qualifier_t) (comp_name : Z)
  : bool * list comp_evid_request_t :=
  match requests with
  | [] => (false, [])
  | request :: rest =>
      if comp_evid_matches request vendor_id0 qualifier0 comp_name
      then (true, rest)
      else
        let '(found, rest') :=
          check_off_comp_enumerate rest vendor_id0 qualifier0 comp_name in
        (found, request :: rest')
  end.

Definition check_off_comp_evid_request (this : private_imv_attestation_state_t)
    (vendor_id0 : Z) (qualifier0 : pts_qualifier_t) (comp_name : Z)
  : bool * private_imv_attestation_state_t :=
  let '(found, requests) :=
    check_off_comp_enumerate (comp_evid_requests this) vendor_id0 qualifier0
      comp_name in
  (found,
   mk_state (connection_id this) (state this) (handshake_state this)
     (rec this) (eval this) (file_meas_request_counter this)
     (file_meas_requests this) requests (pts this) (measurement_error this)).

Definition get_comp_evid_request_count (this : private_imv_attestation_state_t)
  : Z := get_count (comp_evid_requests this).

Definition get_measurement_error (this : private_imv_attestation_state_t)
  : bool := measurement_error this.

Definition set_measurement_error (this : private_imv_attestation_state_t)
  : private_imv_attestation_state_t :=
  mk_state (connection_id this) (state this) (handshake_state this)
    (rec this) (eval this) (file_meas_request_counter this)
    (file_meas_requests this) (comp_evid_requests this) (pts this) true.

(** [imv_attestation_state_create].  The [INIT] macro is not among the
    source files: it allocates the object and leaves the members it is not
    given zeroed (spec 3: the counter "starts at 0"; 4.1 [create]:
    "measurement-error = false").  [platform_info] is what the settings
    lookup of "libimcv.plugins.imv-attestation.platform_info" yields,
    [None] for NULL. *)
Definition imv_attestation_state_create (connection_id : TNC_ConnectionID)
    (platform_info : option string) : private_imv_attestation_state_t :=
  let this :=
    mk_state connection_id TNC_CONNECTION_STATE_CREATE
      IMV_ATTESTATION_STATE_INIT
      TNC_IMV_ACTION_RECOMMENDATION_NO_RECOMMENDATION
      TNC_IMV_EVALUATION_RESULT_DONT_KNOW
      0 [] [] (pts_create false) false in
  match platform_info with
  | Some info =>
      mk_state (ImvAttestationState.connection_id this) (state this)
        (handshake_state this) (rec this) (eval this)
        (file_meas_request_counter this) (file_meas_requests this)
        (comp_evid_requests this) (pts_set_platform_info (pts this) info)
        (measurement_error this)
  | None => this
  end.

(** ** Sequences of calls on one state object *)

(** A call of a method of the interface on the object ([destroy], which
    ends its life, apart).  [Call_check_off_file_meas_request] carries what
    the caller's two output variables hold before the call; [Call_use_pts]
    stands for the caller working on the PTS object through the handle
    [get_pts] handed out, leaving it as given.  [get_reason_string] does
    not read or write the object: in a sequence of calls it stands for a
    call that returned. *)
Inductive call :=
| Call_get_connection_id
| Call_change_state (new_state : TNC_ConnectionState)
| Call_get_recommendation
| Call_set_recommendation (rec' : TNC_IMV_Action_Recommendation)
                          (eval' : TNC_IMV_Evaluation_Result)
| Call_get_reason_string (preferred_language : chunk_t)
| Call_get_handshake_state
| Call_set_handshake_state (new_state : imv_attestation_handshake_state_t)
| Call_get_pts
| Call_use_pts (pts' : pts_t)
| Call_add_file_meas_request (file_id0 : Z) (is_dir0 : bool)
| Call_check_off_file_meas_request (id0 : Z) (file_id0 : Z) (is_dir0 : bool)
| Call_get_file_meas_request_count
| Call_add_comp_evid_request (vendor_id0 : Z) (qualifier0 : pts_qualifier_t)
                             (comp_name : Z)
| Call_check_off_comp_evid_request (vendor_id0 : Z)
                                   (qualifier0 : pts_qualifier_t)
                                   (comp_name : Z)
| Call_get_comp_evid_request_count
| Call_get_measurement_error
| Call_set_measurement_error.

(** What a caller observes of the file-measurement registry. *)
Inductive event :=
| Issued (id0 : Z)        (* add_file_meas_request returned id0 *)
| Checked_off (id0 : Z).  (* check_off_file_meas_request(id0) returned TRUE *)

Definition step (c : call) (this : private_imv_attestation_state_t)
  : list event * private_imv_attestation_state_t :=
  match c with
  | Call_change_state new_state => ([], change_state this new_state)
  | Call_set_recommendation rec' eval' =>
      ([], set_recommendation this rec' eval')
  | Call_set_handshake_state new_state =>
      ([], set_handshake_state this new_state)
  | Call_use_pts pts' =>
      ([], mk_state (connection_id this) (state this) (handshake_state this)
             (rec this) (eval this) (file_meas_request_counter this)
             (file_meas_requests this) (comp_evid_requests this) pts'
             (measurement_error this))
  | Call_add_file_meas_request file_id0 is_dir0 =>
      let '(k, this') := add_file_meas_request this file_id0 is_dir0 in
      ([Issued k], this')
  | Call_check_off_file_meas_request id0 file_id0 is_dir0 =>
      let '(r, this') :=
        check_off_file_meas_request this id0 file_id0 is_dir0 in
      (if found r then [Checked_off id0] else [], this')
  | Call_add_comp_evid_request vendor_id0 qualifier0 comp_name =>
      ([], add_comp_evid_request this vendor_id0 qualifier0 comp_name)
  | Call_check_off_comp_evid_request vendor_id0 qualifier0 comp_name =>
      ([], snd (check_off_comp_evid_request this vendor_id0 qualifier0
                  comp_name))
  | Call_set_measurement_error => ([], set_measurement_error this)
  | Call_get_connection_id
  | Call_get_recommendation
  | Call_get_reason_string _
  | Call_get_handshake_state
  | Call_get_pts
  | Call_get_file_meas_request_count
  | Call_get_comp_evid_request_count
  | Call_get_measurement_error => ([], this)
  end.

Fixpoint run (calls : list call) (this : private_imv_attestation_state_t)
  : list event * private_imv_attestation_state_t :=
  match calls with
  | [] => ([], this)
  | c :: calls' =>
      let '(ev, this') := step c this in
      let '(evs, this'') := run calls' this' in
      (ev ++ evs, this'')
  end.

(** The ids [add_file_meas_request] returned, in issuance order. *)
Fixpoint issued_ids (log : list event) : list Z :=
  match log with
  | [] => []
  | Issued k :: log' => k :: issued_ids log'
  | Checked_off _ :: log' => issued_ids log'
  end.

(** The ids of the successful check-offs, in order. *)
Fixpoint checked_off_ids (log : list event) : list Z :=
  match log with
  | [] => []
  | Issued _ :: log' => checked_off_ids log'
  | Checked_off k :: log' => k :: checked_off_ids log'
  end.

(** How many calls of [add_file_meas_request] a sequence holds. *)
Fixpoint file_adds (calls : list call) : nat :=
  match calls with
  | [] => O
  | Call_add_file_meas_request _ _ :: calls' => S (file_adds calls')
  | _ :: calls' => file_adds calls'
  end.

(** How many pending file-measurement requests carry the id. *)
Definition pending_with_id (this : private_imv_attestation_state_t) (id0 : Z)
  : nat :=
  count_occ Z.eq_dec (map id (file_meas_requests this)) id0.

(** How many pending component-evidence requests match the tuple. *)
Definition pending_matching (this : private_imv_attestation_state_t)
    (vendor_id0 : Z) (qualifier0 : pts_qualifier_t) (comp_name : Z) : nat :=
  List.length
    (filter (fun r => comp_evid_matches r vendor_id0 qualifier0 comp_name)
       (comp_evid_requests this)).

(** [n] times [set_measurement_error]. *)
Fixpoint set_measurement_error_times (n : nat)
    (this : private_imv_attestation_state_t)
  : private_imv_attestation_state_t :=
  match n with
  | O => this
  | S n' => set_measurement_error_times n' (set_measurement_error this)
  end.

(** What the last [set_recommendation] of a sequence of calls wrote, or
    [init] when it holds none. *)
Fixpoint final_recommendation (calls : list call)
    (init : TNC_IMV_Action_Recommendation * TNC_IMV_Evaluation_Result)
  : TNC_IMV_Action_Recommendation * TNC_IMV_Evaluation_Result :=
  match calls with
  | [] => init
  | Call_set_recommendation rec' eval' :: calls' =>
      final_recommendation calls' (rec', eval')
  | _ :: calls' => final_recommendation calls' init
  end.

(** What the last [set_handshake_state] of a sequence of calls wrote. *)
Fixpoint final_handshake_state (calls : list call)
    (init : imv_attestation_handshake_state_t)
  : imv_attestation_handshake_state_t :=
  match calls with
  | [] => init
  | Call_set_handshake_state new_state :: calls' =>
      final_handshake_state calls' new_state
  | _ :: calls' => final_handshake_state calls' init
  end.

(** What the last [change_state] of a sequence of calls wrote. *)
Fixpoint final_connection_state (calls : list call)
    (init : TNC_ConnectionState) : TNC_ConnectionState :=
  match calls with
  | [] => init
  | Call_change_state new_state :: calls' =>
      final_connection_state calls' new_state
  | _ :: calls' => final_connection_state calls' init
  end.

(** Whether a sequence of calls holds a [set_measurement_error]. *)
Fixpoint sets_measurement_error (calls : list call) : bool :=
  match calls with
  | [] => false
  | Call_set_measurement_error :: _ => true
  | _ :: calls' => sets_measurement_error calls'
  end.

(** [n] times [add_comp_evid_request] with one tuple. *)
Fixpoint add_comp_evid_request_times (n : nat)
    (this : private_imv_attestation_state_t)
    (vendor_id0 : Z) (qualifier0 : pts_qualifier_t) (comp_name : Z)
  : private_imv_attestation_state_t :=
  match n with
  | O => this
  | S n' =>
      add_comp_evid_request
        (add_comp_evid_request_times n' this vendor_id0 qualifier0 comp_name)
        vendor_id0 qualifier0 comp_name
  end.

(** The state object with another list of file-measurement requests. *)
Definition with_file_meas_requests (this : private_imv_attestation_state_t)
    (requests : list file_meas_request_t) : private_imv_attestation_state_t :=
  mk_state (connection_id this) (state this) (handshake_state this)
    (rec this) (eval this) (file_meas_request_counter this) requests
    (comp_evid_requests this) (pts this) (measurement_error this).

(** The state object with another list of component-evidence requests. *)
Definition with_comp_evid_requests (this : private_imv_attestation_state_t)
    (requests : list comp_evid_request_t) : private_imv_attestation_state_t :=
  mk_state (connection_id this) (state this) (handshake_state this)
    (rec this) (eval this) (file_meas_request_counter this)
    (file_meas_requests this) requests (pts this) (measurement_error this).

End ImvAttestationState.

(* ================================================================== *)
(** * transaction.c                                                    *)
(* ================================================================== *)

Module Transaction.

(** The enumerations are declared in headers that are not among the source
    files.  Each keeps the constants [transaction_create] names and one
    constructor for every other value. *)
Inductive exchange_type_t :=
| IKE_SA_INIT | IKE_AUTH | CREATE_CHILD_SA | INFORMATIONAL
| Exchange_other (code : Z).

Inductive notify_type_t := REKEY_SA | Notify_other (code : Z).

Inductive protocol_id_t :=
| PROTO_IKE | PROTO_AH | PROTO_ESP | Proto_other (code : Z).

(** A payload, by its type ([get_type]: NOTIFY, DELETE or another) and
    by what the code reads from it after the cast to that type: the notify
    type and protocol id of a notify payload, the protocol id of a delete
    payload. *)
Inductive payload_t :=
| NOTIFY (notify_type : notify_type_t) (protocol_id : protocol_id_t)
| DELETE (protocol_id : protocol_id_t)
| Payload_other (code : Z).

(** A message, by its getters; [payloads] is what the payload iterator
    visits, in order. *)
Record message_t := mk_message {
  get_request : bool;
  get_message_id : Z;                (* u_int32_t *)
  get_exchange_type : exchange_type_t;
  payloads : list payload_t
}.

(** Whether a payload is a delete payload for the IKE protocol. *)
Definition is_ike_delete (current : payload_t) : bool :=
  match current with
  | DELETE PROTO_IKE => true
  | _ => false
  end.

Section Create.

(** The IKE_SA and transaction objects and the three constructors
    [transaction_create] calls are not among the source files: they are
    parameters.  A constructor returns a pointer, [None] being NULL. *)
Variables ike_sa_t transaction_t : Type.
Variables ike_sa_init_create delete_ike_sa_create dead_peer_detection_create
  : ike_sa_t -> Z -> option transaction_t.

Definition NULL : option transaction_t := None.

(** The loop of the CREATE_CHILD_SA case: look for a REKEY_SA notify. *)
Fixpoint create_child_sa_loop (iterator : list payload_t)
    (transaction : option transaction_t) : option transaction_t :=
  match iterator with
  | [] => transaction
  | current :: iterator' =>
      match current with
      | NOTIFY REKEY_SA protocol_id =>
          let transaction :=
            match protocol_id with
            | PROTO_IKE => transaction              (* TODO in the code *)
            | PROTO_AH | PROTO_ESP => transaction   (* TODO in the code *)
            | Proto_other _ => transaction
            end in
          match transaction with
          | Some _ => transaction
          | None => create_child_sa_loop iterator' transaction
          end
      | _ => create_child_sa_loop iterator' transaction
      end
  end.

(** The loop of the INFORMATIONAL case, on [payload_count] (a [u_int]) and
    [transaction]. *)
Fixpoint informational_loop (ike_sa : ike_sa_t) (message_id : Z)
    (iterator : list payload_t) (payload_count : Z)
    (transaction : option transaction_t) : Z * option transaction_t :=
  match iterator with
  | [] => (payload_count, transaction)
  | current :: iterator' =>
      let payload_count := (payload_count + 1) mod 2 ^ 32 in
      let transaction :=
        match current with
        | DELETE PROTO_IKE => delete_ike_sa_create ike_sa message_id
        | _ => transaction
        end in
      match transaction with
      | Some _ => (payload_count, transaction)
      | None =>
          informational_loop ike_sa message_id iterator' payload_count
            transaction
      end
  end.

Definition transaction_create (ike_sa : ike_sa_t) (request : message_t)
  : option transaction_t :=
  let transaction := NULL in
  if negb (get_request request) then NULL
  else
    let message_id := get_message_id request in
    match get_exchange_type request with
    | IKE_SA_INIT => ike_sa_init_create ike_sa message_id
    | IKE_AUTH =>
        (* IKE_AUTH is always created in IKE_SA_INIT, it never should
           appear alone *)
        transaction
    | CREATE_CHILD_SA => create_child_sa_loop (payloads request) transaction
    | INFORMATIONAL =>
        let '(payload_count, transaction) :=
          informational_loop ike_sa message_id (payloads request) 0
            transaction in
        if payload_count =? 0
        then dead_peer_detection_create ike_sa message_id
        else transaction
    | Exchange_other _ => transaction
    end.

End Create.

Arguments NULL {transaction_t}.
Arguments create_child_sa_loop {transaction_t}.
Arguments informational_loop {ike_sa_t transaction_t}.
Arguments transaction_create {ike_sa_t transaction_t}.

End Transaction.

(* ================================================================== *)
(** * Properties of the reason-string lookup                           *)
(* ================================================================== *)

Import Lexparser ImvAttestationState.

Section Tokens.

Implicit Types (src tok ws rest : chunk_t) (c : ascii).

Lemma skip_whitespace_app ws src :
  all_whitespace ws -> skip_whitespace (ws ++ src) = skip_whitespace src.
Proof.
  induction 1 as [|c ws Hc _ IH]; simpl; [reflexivity|].
  now rewrite Hc.
Qed.

Lemma skip_whitespace_stop c src :
  is_whitespace c = false -> skip_whitespace (c :: src) = c :: src.
Proof. intros H; simpl; now rewrite H. Qed.

Lemma eat_whitespace_token ws c src :
  all_whitespace ws -> is_whitespace c = false ->
  eat_whitespace (ws ++ c :: src) = (true, c :: src).
Proof.
  intros Hws Hc. unfold eat_whitespace.
  rewrite skip_whitespace_app, skip_whitespace_stop by assumption.
  reflexivity.
Qed.

Lemma memchr_absent t src :
  ~ In t src -> memchr t src = None.
Proof.
  induction src as [|c src IH]; simpl; intros H; [reflexivity|].
  destruct (Ascii.eqb_spec c t) as [->|_].
  - exfalso; apply H; now left.
  - rewrite IH; [reflexivity|]. intros Hin; apply H; now right.
Qed.

Lemma memchr_first t tok rest :
  ~ In t tok -> memchr t (tok ++ t :: rest) = Some (List.length tok).
Proof.
  induction tok as [|c tok IH]; simpl; intros H.
  - now rewrite Ascii.eqb_refl.
  - destruct (Ascii.eqb_spec c t) as [->|_].
    + exfalso; apply H; now left.
    + rewrite IH; [reflexivity|]. intros Hin; apply H; now right.
Qed.

Lemma firstn_length_app {A} (l l' : list A) :
  firstn (List.length l) (l ++ l') = l.
Proof. induction l; simpl; [reflexivity | now f_equal]. Qed.

Lemma skipn_length_app {A} (l : list A) x l' :
  skipn (S (List.length l)) (l ++ x :: l') = l'.
Proof. induction l; simpl; [reflexivity | assumption]. Qed.

Lemma extract_token_first t tok rest :
  ~ In t tok -> extract_token t (tok ++ t :: rest) = (true, tok, rest).
Proof.
  intros H. unfold extract_token. rewrite (memchr_first _ _ _ H).
  now rewrite firstn_length_app, skipn_length_app.
Qed.

Lemma extract_token_last t src :
  ~ In t src -> extract_token t src = (false, chunk_empty, src).
Proof. intros H. unfold extract_token. now rewrite memchr_absent. Qed.

(** The trailing-blank loop stops at the last byte that is not a blank. *)
Lemma eat_trailing_spaces tok n m :
  (m <= n)%nat ->
  eat_trailing (tok ++ repeat SPACE n) (List.length tok + m)
  = eat_trailing (tok ++ repeat SPACE n) (List.length tok).
Proof.
  induction m as [|m IH]; intros Hm.
  - now rewrite Nat.add_0_r.
  - rewrite Nat.add_succ_r. simpl.
    rewrite app_nth2 by lia.
    replace (List.length tok + m - List.length tok)%nat with m by lia.
    rewrite nth_repeat_lt by lia.
    rewrite Ascii.eqb_refl. apply IH. lia.
Qed.

Lemma eat_trailing_stop tok c sfx :
  c <> SPACE ->
  eat_trailing ((tok ++ [c]) ++ sfx) (List.length (tok ++ [c]))
  = List.length (tok ++ [c]).
Proof.
  intros Hc. rewrite length_app. simpl List.length.
  rewrite Nat.add_1_r. simpl.
  rewrite <- app_assoc. rewrite app_nth2 by lia.
  rewrite Nat.sub_diag. simpl.
  destruct (Ascii.eqb_spec c SPACE); [contradiction|reflexivity].
Qed.

Lemma trim_trailing_spaces tok n :
  tok <> [] -> last tok Ascii.zero <> SPACE ->
  trim_trailing (tok ++ repeat SPACE n) = tok.
Proof.
  intros Hne Hlast. unfold trim_trailing.
  rewrite length_app, repeat_length.
  rewrite eat_trailing_spaces by lia.
  destruct (exists_last Hne) as [tok' [c ->]].
  rewrite last_last in Hlast.
  rewrite eat_trailing_stop by assumption.
  apply firstn_length_app.
Qed.

End Tokens.

Section ReasonString.

Variable this : private_imv_attestation_state_t.

Implicit Types (pl tok ws rest : chunk_t) (r : reason_result).

(** One token, comma-terminated: the blanks and tabs before it and the
    blanks behind it are gone when it is compared with the table. *)
Lemma loop_body_token ws tok n rest :
  all_whitespace ws ->
  tok <> [] -> is_whitespace (hd Ascii.zero tok) = false ->
  ~ In COMMA tok -> last tok Ascii.zero <> SPACE ->
  loop_body (ws ++ tok ++ repeat SPACE n ++ COMMA :: rest)
  = match find_reason reasons tok with
    | Some (s, l) => Return s l
    | None => Continue rest
    end.
Proof.
  intros Hws Hne Hhd Hcomma Hlast.
  destruct tok as [|c tok']; [contradiction|]. simpl in Hhd.
  unfold loop_body.
  rewrite <- app_comm_cons, (eat_whitespace_token ws c _ Hws Hhd).
  rewrite app_comm_cons, app_assoc.
  rewrite extract_token_first.
  - now rewrite trim_trailing_spaces.
  - intros Hin. apply in_app_or in Hin as [Hin|Hin]; [now apply Hcomma|].
    apply repeat_spec in Hin. discriminate Hin.
Qed.

(** The final token, with no comma behind it: compared in the same way,
    but the input is left as it was for the next round. *)
Lemma loop_body_final_token ws tok n :
  all_whitespace ws ->
  tok <> [] -> is_whitespace (hd Ascii.zero tok) = false ->
  ~ In COMMA tok -> last tok Ascii.zero <> SPACE ->
  loop_body (ws ++ tok ++ repeat SPACE n)
  = match find_reason reasons tok with
    | Some (s, l) => Return s l
    | None => Continue (tok ++ repeat SPACE n)
    end.
Proof.
  intros Hws Hne Hhd Hcomma Hlast.
  destruct tok as [|c tok']; [contradiction|]. simpl in Hhd.
  unfold loop_body.
  rewrite <- app_comm_cons, (eat_whitespace_token ws c _ Hws Hhd).
  rewrite app_comm_cons.
  rewrite extract_token_last.
  - now rewrite trim_trailing_spaces.
  - intros Hin. apply in_app_or in Hin as [Hin|Hin]; [now apply Hcomma|].
    apply repeat_spec in Hin. discriminate Hin.
Qed.

(** The tags of the table are tokens in this sense, and each finds its own
    entry. *)
Lemma table_tag_is_token e :
  In e reasons ->
  let tok := chunk_create (lang e) in
  tok <> [] /\ is_whitespace (hd Ascii.zero tok) = false /\
  ~ In COMMA tok /\ last tok Ascii.zero <> SPACE /\
  find_reason reasons tok = Some (chunk_create (string_ e), tok).
Proof.
  intros He.
  repeat (destruct He as [<-|He]; [
    repeat split; try discriminate;
    intros Hin; simpl in Hin; intuition discriminate |]).
  destruct He.
Qed.

(** A round that hands the loop back the input it was given repeats for
    ever: no amount of fuel yields a result, and the call does not return. *)
Lemma stuck_round_no_result pl :
  loop_body pl = Continue pl ->
  forall fuel, get_reason_string fuel this pl = None.
Proof.
  intros Hstuck fuel. induction fuel as [|fuel IH]; simpl; [reflexivity|].
  now rewrite Hstuck.
Qed.

Lemma stuck_round_never_returns pl :
  loop_body pl = Continue pl ->
  forall r, ~ reason_string_returns pl r.
Proof.
  intros Hstuck r Hret.
  induction Hret as [pl s l H|pl H|pl pl' r H _ IH].
  - rewrite Hstuck in H; discriminate.
  - rewrite Hstuck in H; discriminate.
  - rewrite Hstuck in H. injection H as <-. now apply IH.
Qed.

(** The relation and the fuelled function describe the same loop. *)
Lemma returns_iff_fuel pl r :
  reason_string_returns pl r <->
  exists fuel, get_reason_string fuel this pl = Some r.
Proof.
  split.
  - induction 1 as [pl s l H|pl H|pl pl' r H _ [fuel IH]].
    + exists 1%nat. simpl. now rewrite H.
    + exists 1%nat. simpl. now rewrite H.
    + exists (S fuel). simpl. now rewrite H.
  - intros [fuel H]. revert pl H.
    induction fuel as [|fuel IH]; simpl; intros pl H; [discriminate|].
    destruct (loop_body pl) as [s l|pl'|] eqn:Hb.
    + injection H as <-. now apply returns_match.
    + eapply returns_next; eauto.
    + injection H as <-. now apply returns_default.
Qed.

(** More fuel does not change a result. *)
Lemma get_reason_string_fuel_mono fuel pl r :
  get_reason_string fuel this pl = Some r ->
  forall fuel', (fuel <= fuel')%nat ->
  get_reason_string fuel' this pl = Some r.
Proof.
  revert pl. induction fuel as [|fuel IH]; simpl; intros pl H fuel' Hle;
    [discriminate|].
  destruct fuel' as [|fuel']; [lia|]. simpl.
  destruct (loop_body pl); try assumption.
  apply IH; [assumption|lia].
Qed.

(** An unmatched final token keeps the loop running for ever. *)
Lemma unmatched_final_token_no_result ws tok n :
  all_whitespace ws ->
  tok <> [] -> is_whitespace (hd Ascii.zero tok) = false ->
  ~ In COMMA tok -> last tok Ascii.zero <> SPACE ->
  find_reason reasons tok = None ->
  forall fuel, get_reason_string fuel this (ws ++ tok ++ repeat SPACE n) = None.
Proof.
  intros Hws Hne Hhd Hcomma Hlast Hnone fuel.
  assert (Hstuck : loop_body (tok ++ repeat SPACE n)
                   = Continue (tok ++ repeat SPACE n)).
  { change (tok ++ repeat SPACE n) with ([] ++ tok ++ repeat SPACE n) at 1.
    rewrite loop_body_final_token by (try constructor; assumption).
    now rewrite Hnone. }
  destruct fuel as [|fuel]; [reflexivity|]. simpl.
  rewrite loop_body_final_token by assumption. rewrite Hnone.
  now apply stuck_round_no_result.
Qed.

End ReasonString.

Lemma get_reason_string_round fuel this pl :
  get_reason_string (S fuel) this pl
  = match loop_body pl with
    | Return s l => Some (mk_reason_result true s l)
    | Continue pl' => get_reason_string fuel this pl'
    | Break => Some (reason_of reasons_0)
    end.
Proof. reflexivity. Qed.

(** The table holds the tags en, mn and de, in this order. *)
Lemma reasons_tags : map lang reasons = ["en"; "mn"; "de"]%string.
Proof. reflexivity. Qed.

(** A table tag, after any blanks and tabs and before any blanks, selects
    its own entry, as a comma-terminated token and as the final one. *)
Lemma tag_with_blanks_selects_entry this ws e n rest fuel :
  all_whitespace ws -> In e reasons ->
  get_reason_string (S fuel) this
    (ws ++ chunk_create (lang e) ++ repeat SPACE n ++ COMMA :: rest)
  = Some (reason_of e)
  /\ get_reason_string (S fuel) this
       (ws ++ chunk_create (lang e) ++ repeat SPACE n)
     = Some (reason_of e).
Proof.
  intros Hws He.
  destruct (table_tag_is_token e He) as (Hne & Hhd & Hcomma & Hlast & Hfind).
  rewrite !get_reason_string_round.
  rewrite loop_body_token, loop_body_final_token by assumption.
  rewrite Hfind. split; reflexivity.
Qed.

(** C2 (the code does not meet the claim): on the single tag fr, which the
    table does not hold, the loop of [get_reason_string] never ends.  The
    failed [extract_token] leaves [preferred_language] as it was, so every
    round sees the same input: no fuel yields a result and the call does
    not return, where the claim has it return the default entry. *)
Theorem get_reason_string_unmatched_final_tag_never_returns :
  forall this,
    loop_body (chunk_create "fr") = Continue (chunk_create "fr") /\
    (forall fuel, get_reason_string fuel this (chunk_create "fr") = None) /\
    (forall r, ~ reason_string_returns (chunk_create "fr") r).
Proof.
  intros this.
  assert (Hstuck : loop_body (chunk_create "fr") = Continue (chunk_create "fr"))
    by reflexivity.
  split; [exact Hstuck|]. split.
  - now apply stuck_round_no_result.
  - now apply stuck_round_never_returns.
Qed.

(** C4 (the code does not meet the claim): with the table en, mn, de, the
    input "fr, de" yields the de entry and the empty input the default en
    entry, as claimed; on "fr" the call yields nothing, for any fuel, where
    the claim has it yield the default en entry. *)
Theorem localization_fallback_cases :
  forall this,
    map lang reasons = ["en"; "mn"; "de"]%string /\
    (forall fuel,
        get_reason_string (S (S fuel)) this (chunk_create "fr, de")
        = Some (reason_of (nth 2 reasons reasons_0))) /\
    (forall fuel,
        get_reason_string (S fuel) this (chunk_create "")
        = Some (reason_of reasons_0)) /\
    (forall fuel, get_reason_string fuel this (chunk_create "fr") = None).
Proof.
  intros this. split; [reflexivity|]. split; [|split].
  - intros fuel. rewrite get_reason_string_round.
    replace (loop_body (chunk_create "fr, de"))
      with (Continue (chunk_create " de")) by reflexivity.
    rewrite get_reason_string_round.
    replace (loop_body (chunk_create " de"))
      with (Return (chunk_create (string_ (nth 2 reasons reasons_0)))
                   (chunk_create "de")) by reflexivity.
    reflexivity.
  - intros fuel. rewrite get_reason_string_round.
    replace (loop_body (chunk_create "")) with Break by reflexivity.
    reflexivity.
  - apply stuck_round_no_result. reflexivity.
Qed.

(** C8 (the code does not meet the claim): the trailing loop compares with
    the blank only.  "de" and "de " before a comma select the de entry, but
    "de<TAB>" is compared with its tab and matches nothing: "de<TAB>,en"
    yields the en entry, and the claim's own "de<TAB>, fr" yields nothing,
    for any fuel. *)
Theorem trailing_tab_is_not_trimmed :
  forall this,
    (forall fuel,
        get_reason_string (S fuel) this (chunk_create "de,en")
        = Some (reason_of (nth 2 reasons reasons_0))) /\
    (forall fuel,
        get_reason_string (S fuel) this (chunk_create "de ,en")
        = Some (reason_of (nth 2 reasons reasons_0))) /\
    (forall fuel,
        get_reason_string (S (S fuel)) this
          (chunk_create "de" ++ TAB :: chunk_create ",en")
        = Some (reason_of reasons_0)) /\
    (forall fuel,
        get_reason_string fuel this
          (chunk_create "de" ++ TAB :: chunk_create ", fr")
        = None).
Proof.
  intros this. split; [|split; [|split]]; intros fuel.
  - rewrite get_reason_string_round.
    replace (loop_body (chunk_create "de,en"))
      with (Return (chunk_create (string_ (nth 2 reasons reasons_0)))
                   (chunk_create "de")) by reflexivity.
    reflexivity.
  - rewrite get_reason_string_round.
    replace (loop_body (chunk_create "de ,en"))
      with (Return (chunk_create (string_ (nth 2 reasons reasons_0)))
                   (chunk_create "de")) by reflexivity.
    reflexivity.
  - rewrite get_reason_string_round.
    replace (loop_body (chunk_create "de" ++ TAB :: chunk_create ",en"))
      with (Continue (chunk_create "en")) by reflexivity.
    rewrite get_reason_string_round.
    replace (loop_body (chunk_create "en"))
      with (Return (chunk_create (string_ reasons_0)) (chunk_create "en"))
      by reflexivity.
    reflexivity.
  - destruct fuel as [|fuel]; [reflexivity|].
    rewrite get_reason_string_round.
    replace (loop_body (chunk_create "de" ++ TAB :: chunk_create ", fr"))
      with (Continue (chunk_create " fr")) by reflexivity.
    destruct fuel as [|fuel]; [reflexivity|].
    rewrite get_reason_string_round.
    replace (loop_body (chunk_create " fr"))
      with (Continue (chunk_create "fr")) by reflexivity.
    apply stuck_round_no_result. reflexivity.
Qed.

(* ================================================================== *)
(** * Properties of the request registries                             *)
(* ================================================================== *)

(** Name the results of the two enumerations a goal mentions. *)
Ltac destruct_enumerate :=
  unfold check_off_file_meas_request, check_off_comp_evid_request;
  repeat match goal with
    | |- context [check_off_file_enumerate ?l ?i ?f ?d] =>
        destruct (check_off_file_enumerate l i f d)
    | |- context [check_off_comp_enumerate ?l ?v ?q ?n] =>
        destruct (check_off_comp_enumerate l v q n)
    end.

Section Runs.

Implicit Types (this : private_imv_attestation_state_t) (calls : list call)
  (log : list event).

Lemma run_cons c calls this :
  run (c :: calls) this
  = (fst (step c this) ++ fst (run calls (snd (step c this))),
     snd (run calls (snd (step c this)))).
Proof.
  cbn [run]. destruct (step c this) as [ev this']. cbn [fst snd].
  destruct (run calls this') as [evs this'']. reflexivity.
Qed.

Lemma issued_ids_app log log' :
  issued_ids (log ++ log') = issued_ids log ++ issued_ids log'.
Proof.
  induction log as [|[k|k] log IH]; simpl; [reflexivity| |assumption].
  now f_equal.
Qed.

Lemma checked_off_ids_app log log' :
  checked_off_ids (log ++ log') = checked_off_ids log ++ checked_off_ids log'.
Proof.
  induction log as [|[k|k] log IH]; simpl; [reflexivity|assumption|].
  now f_equal.
Qed.

(** Only [add_file_meas_request] moves the counter, and it is the only
    call that issues an id. *)
Lemma step_counter c this :
  file_meas_request_counter (snd (step c this))
  = match c with
    | Call_add_file_meas_request _ _ =>
        u_int16 (file_meas_request_counter this + 1)
    | _ => file_meas_request_counter this
    end.
Proof.
  destruct c; simpl; destruct_enumerate; reflexivity.
Qed.

Lemma step_issued c this :
  issued_ids (fst (step c this))
  = match c with
    | Call_add_file_meas_request _ _ =>
        [u_int16 (file_meas_request_counter this + 1)]
    | _ => []
    end.
Proof.
  destruct c; simpl; destruct_enumerate; try reflexivity.
  simpl. now destruct (found _).
Qed.

Lemma u_int16_succ c i :
  u_int16 (u_int16 (c + 1) + Z.of_nat i) = u_int16 (c + Z.of_nat (S i)).
Proof.
  unfold u_int16, UINT16_MODULUS. rewrite Zplus_mod_idemp_l.
  f_equal. lia.
Qed.

(** The ids a sequence of calls is given are the successors of the
    counter it starts from, modulo 2^16, one for each add. *)
Lemma run_issued_ids calls this :
  issued_ids (fst (run calls this))
  = map (fun i => u_int16 (file_meas_request_counter this + Z.of_nat i))
      (seq 1 (file_adds calls)).
Proof.
  revert this. induction calls as [|c calls IH]; intros this; [reflexivity|].
  rewrite run_cons. cbn [fst]. rewrite issued_ids_app, step_issued, IH.
  rewrite step_counter.
  destruct c; try reflexivity.
  cbn [file_adds app seq map]. f_equal.
  rewrite <- (seq_shift (file_adds calls) 1), map_map.
  apply map_ext. intros i. apply u_int16_succ.
Qed.

Lemma run_counter calls this :
  0 <= file_meas_request_counter this < UINT16_MODULUS ->
  file_meas_request_counter (snd (run calls this))
  = u_int16 (file_meas_request_counter this + Z.of_nat (file_adds calls)).
Proof.
  revert this. induction calls as [|c calls IH]; intros this Hc.
  - simpl. rewrite Z.add_0_r. unfold u_int16. now rewrite Z.mod_small.
  - rewrite run_cons. cbn [snd].
    assert (Hc' : 0 <= file_meas_request_counter (snd (step c this))
                  < UINT16_MODULUS).
    { rewrite step_counter. destruct c; try assumption.
      apply Z.mod_pos_bound. reflexivity. }
    rewrite (IH _ Hc'), step_counter.
    destruct c; try reflexivity.
    cbn [file_adds]. apply u_int16_succ.
Qed.

Lemma create_counter cid pi :
  file_meas_request_counter (imv_attestation_state_create cid pi) = 0.
Proof. now destruct pi. Qed.

Lemma create_file_meas_requests cid pi :
  file_meas_requests (imv_attestation_state_create cid pi) = [].
Proof. now destruct pi. Qed.

Lemma create_comp_evid_requests cid pi :
  comp_evid_requests (imv_attestation_state_create cid pi) = [].
Proof. now destruct pi. Qed.

Lemma sorted_of_nat_seq a n :
  StronglySorted Z.lt (map Z.of_nat (seq a n)).
Proof.
  revert a. induction n as [|n IH]; intros a; simpl; constructor.
  - apply IH.
  - apply Forall_forall. intros z Hz.
    apply in_map_iff in Hz as (i & <- & Hi). apply in_seq in Hi. lia.
Qed.

Lemma sorted_lt_nodup (l : list Z) : StronglySorted Z.lt l -> NoDup l.
Proof.
  induction 1 as [|z l _ IH Hall]; constructor; [|assumption].
  intros Hin. rewrite Forall_forall in Hall. specialize (Hall z Hin). lia.
Qed.

(** Before the counter wraps the ids are 1, 2, 3, ... *)
Lemma ids_before_wrap cid pi calls :
  Z.of_nat (file_adds calls) < UINT16_MODULUS ->
  issued_ids (fst (run calls (imv_attestation_state_create cid pi)))
  = map Z.of_nat (seq 1 (file_adds calls)).
Proof.
  intros Hn. rewrite run_issued_ids, create_counter.
  apply map_ext_in. intros i Hi. apply in_seq in Hi.
  unfold u_int16. rewrite Z.mod_small; lia.
Qed.

End Runs.

(** C1 (as amended): for every sequence of calls on a state object since
    its creation that holds fewer than 2^16 calls of
    [add_file_meas_request], check-offs and all other calls included, the
    ids returned are 1, 2, 3, ... in issuance order: pairwise distinct,
    non-zero and strictly increasing. *)
Theorem file_meas_ids_unique_before_wrap :
  forall cid pi calls,
    let ids :=
      issued_ids (fst (run calls (imv_attestation_state_create cid pi))) in
    Z.of_nat (file_adds calls) < UINT16_MODULUS ->
    ids = map Z.of_nat (seq 1 (file_adds calls)) /\
    NoDup ids /\
    Forall (fun k => k <> 0) ids /\
    StronglySorted Z.lt ids.
Proof.
  intros cid pi calls ids Hn. subst ids.
  rewrite (ids_before_wrap cid pi calls Hn).
  split; [reflexivity|].
  pose proof (sorted_of_nat_seq 1 (file_adds calls)) as Hsorted.
  split; [now apply sorted_lt_nodup|]. split; [|assumption].
  apply Forall_forall. intros z Hz.
  apply in_map_iff in Hz as (i & <- & Hi). apply in_seq in Hi. lia.
Qed.

Lemma file_meas_ids_unique_before_wrap_witness :
  let calls := [Call_add_file_meas_request 42 true;
                Call_check_off_file_meas_request 1 0 false;
                Call_add_file_meas_request 7 false] in
  let ids :=
    issued_ids (fst (run calls (imv_attestation_state_create 0 None))) in
  ids = [1; 2] /\ NoDup ids /\ Forall (fun k => k <> 0) ids /\
  StronglySorted Z.lt ids.
Proof.
  apply (file_meas_ids_unique_before_wrap 0 None
           [Call_add_file_meas_request 42 true;
            Call_check_off_file_meas_request 1 0 false;
            Call_add_file_meas_request 7 false]).
  reflexivity.
Defined.

Lemma file_adds_repeat f d n :
  file_adds (repeat (Call_add_file_meas_request f d) n) = n.
Proof. induction n as [|n IH]; simpl; [reflexivity | now f_equal]. Qed.

(** C1 (counterexample): the 65536th id a fresh state object hands out is
    0, the counter being a [u_int16_t]; so the ids of 65536 adds are not all
    non-zero (nor increasing). *)
Lemma file_meas_ids_wrap_to_zero :
  let calls := repeat (Call_add_file_meas_request 0 false) (Z.to_nat 65536) in
  let ids :=
    issued_ids (fst (run calls (imv_attestation_state_create 0 None))) in
  In 0 ids /\
  ~ (NoDup ids /\ Forall (fun k => k <> 0) ids /\ StronglySorted Z.lt ids).
Proof.
  intros calls ids.
  assert (Hzero : In 0 ids).
  { subst ids calls. rewrite run_issued_ids, file_adds_repeat, create_counter.
    apply in_map_iff. exists (Z.to_nat 65536). split.
    - rewrite Z2Nat.id by lia. reflexivity.
    - apply in_seq. lia. }
  split; [assumption|].
  intros (_ & Hnz & _). rewrite Forall_forall in Hnz.
  exact (Hnz 0 Hzero eq_refl).
Qed.

Section FileRegistry.

Implicit Types (this : private_imv_attestation_state_t)
  (requests : list file_meas_request_t).

(** An enumeration that finds nothing leaves the output parameters and the
    list as they were. *)
Lemma enumerate_not_found requests id0 f0 d0 :
  found (fst (check_off_file_enumerate requests id0 f0 d0)) = false ->
  check_off_file_enumerate requests id0 f0 d0
  = (mk_check_off_result false f0 d0, requests).
Proof.
  induction requests as [|request rest IH]; simpl; [reflexivity|].
  destruct (id request =? id0); [discriminate|].
  destruct (check_off_file_enumerate rest id0 f0 d0) as [r rest'].
  simpl in *. intros H. specialize (IH H). now injection IH as -> ->.
Qed.

Lemma enumerate_absent requests id0 f0 d0 :
  ~ In id0 (map id requests) ->
  check_off_file_enumerate requests id0 f0 d0
  = (mk_check_off_result false f0 d0, requests).
Proof.
  induction requests as [|request rest IH]; simpl; intros H; [reflexivity|].
  destruct (Z.eqb_spec (id request) id0) as [E|_].
  - exfalso. apply H. now left.
  - rewrite IH; [reflexivity|]. intros Hin. apply H. now right.
Qed.

(** The entries before the first match are kept, the match is removed and
    its payload handed out, the entries behind it are not visited. *)
Lemma enumerate_first_match requests request rest id0 f0 d0 :
  ~ In id0 (map id requests) -> id request = id0 ->
  check_off_file_enumerate (requests ++ request :: rest) id0 f0 d0
  = (mk_check_off_result true (file_id request) (is_dir request),
     requests ++ rest).
Proof.
  intros H E.
  induction requests as [|x requests IH]; simpl.
  - apply Z.eqb_eq in E. now rewrite E.
  - destruct (Z.eqb_spec (id x) id0) as [Ex|_].
    + exfalso. apply H. now left.
    + rewrite IH; [reflexivity|]. intros Hin. apply H. now right.
Qed.

(** A call removes one entry when it finds a match, and none otherwise. *)
Lemma enumerate_length requests id0 f0 d0 :
  let '(r, requests') := check_off_file_enumerate requests id0 f0 d0 in
  List.length requests
  = (List.length requests' + (if found r then 1 else 0))%nat.
Proof.
  induction requests as [|request rest IH]; simpl; [reflexivity|].
  destruct (id request =? id0); simpl; [lia|].
  destruct (check_off_file_enumerate rest id0 f0 d0) as [r rest'].
  simpl. lia.
Qed.

(** What a successful enumeration does to the number of entries with a
    given id. *)
Lemma enumerate_count requests id0 f0 d0 k :
  let '(r, requests') := check_off_file_enumerate requests id0 f0 d0 in
  count_occ Z.eq_dec (map id requests) k
  = (count_occ Z.eq_dec (map id requests') k
     + (if found r then count_occ Z.eq_dec [id0] k else 0))%nat.
Proof.
  induction requests as [|request rest IH]; [reflexivity|].
  cbn [check_off_file_enumerate].
  destruct (Z.eqb_spec (id request) id0) as [E|_].
  - cbn [found map]. rewrite E. cbn [count_occ].
    destruct (Z.eq_dec id0 k); lia.
  - destruct (check_off_file_enumerate rest id0 f0 d0) as [r rest'].
    cbn [map count_occ] in *.
    destruct (Z.eq_dec (id request) k); lia.
Qed.

Lemma state_eta this :
  mk_state (connection_id this) (state this) (handshake_state this)
    (rec this) (eval this) (file_meas_request_counter this)
    (file_meas_requests this) (comp_evid_requests this) (pts this)
    (measurement_error this) = this.
Proof. now destruct this. Qed.

Lemma check_off_absent this id0 f0 d0 :
  pending_with_id this id0 = 0%nat ->
  check_off_file_meas_request this id0 f0 d0
  = (mk_check_off_result false f0 d0, this).
Proof.
  intros H. apply count_occ_not_In in H.
  unfold check_off_file_meas_request.
  rewrite (enumerate_absent _ _ _ _ H). now rewrite state_eta.
Qed.

(** How a call changes the number of pending requests with a given id. *)
Lemma step_pending c this k :
  (pending_with_id (snd (step c this)) k
   + count_occ Z.eq_dec (checked_off_ids (fst (step c this))) k
   = pending_with_id this k
     + count_occ Z.eq_dec (issued_ids (fst (step c this))) k)%nat.
Proof.
  unfold pending_with_id.
  destruct c; try (simpl; lia).
  - (* add *)
    simpl. unfold insert_last. rewrite map_app, count_occ_app. simpl.
    destruct (Z.eq_dec _ k); lia.
  - (* check-off *)
    cbn [step]. unfold check_off_file_meas_request.
    pose proof (enumerate_count (file_meas_requests this) id0 file_id0
                  is_dir0 k) as Hc.
    destruct (check_off_file_enumerate _ _ _ _) as [r requests'].
    cbn [fst snd file_meas_requests].
    destruct (found r); cbn [checked_off_ids issued_ids] in *; simpl in *; lia.
  - (* component check-off *)
    cbn [step fst snd]. unfold check_off_comp_evid_request.
    destruct (check_off_comp_enumerate _ _ _ _). simpl. lia.
Qed.

(** Over a sequence of calls: the requests pending with an id are those
    pending at the start, plus its issuances, minus its check-offs. *)
Lemma run_pending calls this k :
  (pending_with_id (snd (run calls this)) k
   + count_occ Z.eq_dec (checked_off_ids (fst (run calls this))) k
   = pending_with_id this k
     + count_occ Z.eq_dec (issued_ids (fst (run calls this))) k)%nat.
Proof.
  revert this. induction calls as [|c calls IH]; intros this.
  - simpl. lia.
  - rewrite run_cons. cbn [fst snd].
    rewrite issued_ids_app, checked_off_ids_app, !count_occ_app.
    pose proof (step_pending c this k). specialize (IH (snd (step c this))).
    lia.
Qed.

End FileRegistry.

(** C9: when [check_off_file_meas_request] finds no matching entry it
    returns FALSE, the two output parameters hold what they held before the
    call, and the state object is the one it was: no member is changed. *)
Theorem check_off_file_not_found_frame :
  forall this id0 f0 d0,
    found (fst (check_off_file_meas_request this id0 f0 d0)) = false ->
    check_off_file_meas_request this id0 f0 d0
    = (mk_check_off_result false f0 d0, this).
Proof.
  intros this id0 f0 d0. unfold check_off_file_meas_request.
  pose proof (enumerate_not_found (file_meas_requests this) id0 f0 d0) as H.
  destruct (check_off_file_enumerate _ _ _ _) as [r requests'].
  cbn [fst] in *. intros Hr. specialize (H Hr). injection H as -> ->.
  now rewrite state_eta.
Qed.

Lemma check_off_file_not_found_frame_witness :
  let this := snd (add_file_meas_request
                     (imv_attestation_state_create 3 None) 42 true) in
  check_off_file_meas_request this 2 (-5) true
  = (mk_check_off_result false (-5) true, this).
Proof.
  apply (check_off_file_not_found_frame
           (snd (add_file_meas_request
                   (imv_attestation_state_create 3 None) 42 true))
           2 (-5) true).
  reflexivity.
Defined.

(** On a state object since its creation, an id with as many successful
    check-offs as issuances is carried by no pending request; so is one
    that was never issued. *)
Lemma balanced_id_not_pending cid pi calls id0 :
  let log := fst (run calls (imv_attestation_state_create cid pi)) in
  let this := snd (run calls (imv_attestation_state_create cid pi)) in
  ~ In id0 (issued_ids log) \/
  count_occ Z.eq_dec (checked_off_ids log) id0
  = count_occ Z.eq_dec (issued_ids log) id0 ->
  pending_with_id this id0 = 0%nat.
Proof.
  intros log this H.
  pose proof (run_pending calls (imv_attestation_state_create cid pi) id0)
    as Hbal.
  fold log this in Hbal.
  unfold pending_with_id in Hbal at 2.
  rewrite create_file_meas_requests in Hbal. cbn [map count_occ] in Hbal.
  destruct H as [H|H].
  - apply (count_occ_not_In Z.eq_dec) in H. lia.
  - lia.
Qed.




(** Before the counter wraps, the id the next add will return is carried
    by no pending request. *)
Lemma next_id_fresh_before_wrap cid pi calls f d :
  Z.of_nat (file_adds calls) < UINT16_MODULUS - 1 ->
  let this := snd (run calls (imv_attestation_state_create cid pi)) in
  pending_with_id this (fst (add_file_meas_request this f d)) = 0%nat.
Proof.
  intros Hn this. cbn [add_file_meas_request fst].
  pose proof (run_pending calls (imv_attestation_state_create cid pi)
                (u_int16 (file_meas_request_counter this + 1))) as Hbal.
  fold this in Hbal.
  unfold pending_with_id in Hbal at 2.
  rewrite create_file_meas_requests in Hbal. cbn [map count_occ] in Hbal.
  rewrite ids_before_wrap in Hbal by (unfold UINT16_MODULUS in *; lia).
  assert (Hk : u_int16 (file_meas_request_counter this + 1)
               = Z.of_nat (file_adds calls) + 1).
  { subst this. rewrite run_counter, create_counter
      by (rewrite create_counter; unfold UINT16_MODULUS; lia).
    unfold u_int16, UINT16_MODULUS in *.
    rewrite Zplus_mod_idemp_l. apply Z.mod_small. lia. }
  rewrite Hk in *.
  assert (Hnot : ~ In (Z.of_nat (file_adds calls) + 1)
                   (map Z.of_nat (seq 1 (file_adds calls)))).
  { intros Hin. apply in_map_iff in Hin as (i & E & Hi).
    apply in_seq in Hi. lia. }
  apply (count_occ_not_In Z.eq_dec) in Hnot. lia.
Qed.

(** C3 (as amended): if [add_file_meas_request] with payload (42, TRUE),
    or any other, returns id k and no request pending before the add
    carries k, then checking k off succeeds, yields the payload, restores
    the registry of before the add, and the count after the check-off is
    the count before it minus one. *)
Theorem file_meas_round_trip :
  forall this f d f0 d0,
    let k := fst (add_file_meas_request this f d) in
    let this1 := snd (add_file_meas_request this f d) in
    pending_with_id this k = 0%nat ->
    fst (check_off_file_meas_request this1 k f0 d0)
    = mk_check_off_result true f d /\
    file_meas_requests (snd (check_off_file_meas_request this1 k f0 d0))
    = file_meas_requests this /\
    get_file_meas_request_count
      (snd (check_off_file_meas_request this1 k f0 d0))
    = get_file_meas_request_count this1 - 1.
Proof.
  intros this f d f0 d0 k this1 Hfresh.
  apply count_occ_not_In in Hfresh.
  subst k this1. cbn [add_file_meas_request fst snd] in *.
  unfold check_off_file_meas_request, get_file_meas_request_count, get_count.
  cbn [file_meas_requests]. unfold insert_last.
  rewrite (enumerate_first_match (file_meas_requests this)
             (mk_file_meas_request
                (u_int16 (file_meas_request_counter this + 1)) f d)
             [] _ f0 d0 Hfresh eq_refl).
  cbn [fst snd file_meas_requests file_id is_dir].
  rewrite app_nil_r, length_app. cbn [List.length].
  repeat split. lia.
Qed.

Lemma file_meas_round_trip_witness :
  let this := imv_attestation_state_create 0 None in
  let k := fst (add_file_meas_request this 42 true) in
  let this1 := snd (add_file_meas_request this 42 true) in
  fst (check_off_file_meas_request this1 k 0 false)
  = mk_check_off_result true 42 true /\
  file_meas_requests (snd (check_off_file_meas_request this1 k 0 false))
  = file_meas_requests this /\
  get_file_meas_request_count
    (snd (check_off_file_meas_request this1 k 0 false))
  = get_file_meas_request_count this1 - 1.
Proof.
  apply (file_meas_round_trip (imv_attestation_state_create 0 None)
           42 true 0 false).
  reflexivity.
Defined.

(** A run of adds with one payload appends one request for each, with the
    ids that follow the counter. *)
Lemma run_adds_requests f d n this :
  file_meas_requests
    (snd (run (repeat (Call_add_file_meas_request f d) n) this))
  = file_meas_requests this
    ++ map (fun i =>
              mk_file_meas_request
                (u_int16 (file_meas_request_counter this + Z.of_nat i)) f d)
         (seq 1 n).
Proof.
  revert this. induction n as [|n IH]; intros this.
  - simpl. now rewrite app_nil_r.
  - cbn [repeat]. rewrite run_cons. cbn [snd]. rewrite IH.
    cbn [step add_file_meas_request snd file_meas_requests
         file_meas_request_counter seq map].
    unfold insert_last. rewrite <- app_assoc. cbn [app]. do 2 f_equal.
    rewrite <- (seq_shift n 1), map_map.
    apply map_ext. intros i. now rewrite u_int16_succ.
Qed.

(** One add of (7, FALSE) on a fresh state object and [n] more adds: if
    the counter is back at 0 then, the next add returns id 1 again and the
    check-off of 1 meets the request of the first add. *)
Lemma round_trip_meets_older_request n f d f0 d0 :
  let calls :=
    Call_add_file_meas_request 7 false
    :: repeat (Call_add_file_meas_request 0 false) n in
  let this := snd (run calls (imv_attestation_state_create 0 None)) in
  let k := fst (add_file_meas_request this f d) in
  let this1 := snd (add_file_meas_request this f d) in
  u_int16 (Z.of_nat (S n)) = 0 ->
  k = 1 /\
  fst (check_off_file_meas_request this1 k f0 d0)
  = mk_check_off_result true 7 false.
Proof.
  intros calls this k this1 Hwrap.
  assert (Hcounter : file_meas_request_counter this = 0).
  { subst this calls. rewrite run_counter by (cbv; intuition discriminate).
    cbn [file_adds]. now rewrite file_adds_repeat, create_counter. }
  assert (Hk : k = 1).
  { subst k. cbn [add_file_meas_request fst]. now rewrite Hcounter. }
  assert (Hrequests : exists rest,
             file_meas_requests this = mk_file_meas_request 1 7 false :: rest).
  { subst this calls. rewrite run_cons. cbn [snd]. rewrite run_adds_requests.
    eexists. reflexivity. }
  destruct Hrequests as [rest Hrequests].
  split; [assumption|].
  subst this1. rewrite Hk. unfold check_off_file_meas_request.
  cbn [add_file_meas_request snd file_meas_requests]. rewrite Hrequests.
  reflexivity.
Qed.

(** C3 (counterexample): a state object on which 65536 ids were issued,
    the first request (payload (7, FALSE), id 1) still pending.  The
    counter has wrapped to 0, so the add of (42, TRUE) returns id 1 again,
    and checking 1 off yields the payload (7, FALSE) of the older request,
    not (42, TRUE). *)
Lemma file_meas_round_trip_fails_after_wrap :
  let calls :=
    Call_add_file_meas_request 7 false
    :: repeat (Call_add_file_meas_request 0 false) (Z.to_nat 65535) in
  let this := snd (run calls (imv_attestation_state_create 0 None)) in
  let k := fst (add_file_meas_request this 42 true) in
  let this1 := snd (add_file_meas_request this 42 true) in
  k = 1 /\
  fst (check_off_file_meas_request this1 k 0 false)
  = mk_check_off_result true 7 false /\
  fst (check_off_file_meas_request this1 k 0 false)
  <> mk_check_off_result true 42 true.
Proof.
  assert (Hwrap : u_int16 (Z.of_nat (S (Z.to_nat 65535))) = 0).
  { rewrite Nat2Z.inj_succ, Z2Nat.id by lia. reflexivity. }
  destruct (round_trip_meets_older_request (Z.to_nat 65535) 42 true 0 false
              Hwrap) as [Hk Hyield].
  split; [exact Hk|]. split; [exact Hyield|].
  intros H. rewrite H in Hyield. discriminate Hyield.
Qed.




Section ComponentRegistry.

Implicit Types (this : private_imv_attestation_state_t)
  (requests : list comp_evid_request_t) (q : pts_qualifier_t).

(** The condition compares all five values. *)
Lemma comp_evid_matches_iff request v q n :
  comp_evid_matches request v q n = true <->
  vendor_id request = v /\
  kernel (qualifier request) = kernel q /\
  sub_component (qualifier request) = sub_component q /\
  type (qualifier request) = type q /\
  name request = n.
Proof.
  unfold comp_evid_matches. rewrite !andb_true_iff, !Z.eqb_eq. tauto.
Qed.

Lemma comp_evid_matches_self v q n :
  comp_evid_matches (mk_comp_evid_request v q n) v q n = true.
Proof. apply comp_evid_matches_iff. simpl. tauto. Qed.

Lemma filter_matching_nil requests v q n :
  filter (fun r => comp_evid_matches r v q n) requests = [] ->
  forall r, In r requests -> comp_evid_matches r v q n = false.
Proof.
  intros H r Hin.
  destruct (comp_evid_matches r v q n) eqn:E; [|reflexivity].
  assert (Hf : In r (filter (fun r => comp_evid_matches r v q n) requests))
    by (apply filter_In; now split).
  rewrite H in Hf. destruct Hf.
Qed.

Lemma comp_enumerate_none requests v q n :
  (forall r, In r requests -> comp_evid_matches r v q n = false) ->
  check_off_comp_enumerate requests v q n = (false, requests).
Proof.
  induction requests as [|request rest IH]; simpl; intros H; [reflexivity|].
  rewrite (H request) by now left.
  rewrite IH; [reflexivity|]. intros r Hr. apply H. now right.
Qed.

(** The first entry that matches is the one removed. *)
Lemma comp_enumerate_first_match requests request rest v q n :
  (forall r, In r requests -> comp_evid_matches r v q n = false) ->
  comp_evid_matches request v q n = true ->
  check_off_comp_enumerate (requests ++ request :: rest) v q n
  = (true, requests ++ rest).
Proof.
  intros H E. induction requests as [|x requests IH]; simpl.
  - now rewrite E.
  - rewrite (H x) by now left.
    rewrite IH; [reflexivity|]. intros r Hr. apply H. now right.
Qed.

Lemma pending_matching_none this v q n :
  pending_matching this v q n = 0%nat ->
  forall r, In r (comp_evid_requests this) ->
            comp_evid_matches r v q n = false.
Proof.
  unfold pending_matching. intros H.
  apply filter_matching_nil. now apply length_zero_iff_nil.
Qed.

End ComponentRegistry.

Lemma comp_evid_add_check_off this v q n :
  pending_matching this v q n = 0%nat ->
  check_off_comp_evid_request (add_comp_evid_request this v q n) v q n
  = (true, this) /\
  check_off_comp_evid_request this v q n = (false, this).
Proof.
  intros Hnone.
  pose proof (pending_matching_none this v q n Hnone) as Hno.
  split.
  - unfold check_off_comp_evid_request.
    cbn [add_comp_evid_request comp_evid_requests]. unfold insert_last.
    rewrite (comp_enumerate_first_match _ _ [] _ _ _ Hno
               (comp_evid_matches_self v q n)).
    cbn [add_comp_evid_request connection_id state handshake_state rec
         eval file_meas_request_counter file_meas_requests pts
         measurement_error].
    now rewrite app_nil_r, state_eta.
  - unfold check_off_comp_evid_request.
    rewrite (comp_enumerate_none _ _ _ _ Hno). now rewrite state_eta.
Qed.

(** C6: correlation of component-evidence requests is by the full tuple.
    (1) The condition of the check-off holds exactly when vendor id, the
    three qualifier fields and the name are all equal, and (2) a check-off
    removes the first entry that meets it.  (3) On a fresh state object,
    after the add of (7, {1,0,2}, X) the check-off with the same tuple
    returns TRUE, removing the request, and a second check-off with the
    same tuple returns FALSE and changes nothing; (4) the same holds for
    every tuple on every state object whose registry holds no request with
    the tuple before the add.  (5) Against the one request (7, {1,0,2}, X)
    a tuple that differs in some field is not found. *)
Theorem comp_evid_exact_match :
  (forall request v q n,
      comp_evid_matches request v q n = true <->
      vendor_id request = v /\
      kernel (qualifier request) = kernel q /\
      sub_component (qualifier request) = sub_component q /\
      type (qualifier request) = type q /\
      name request = n) /\
  (forall this requests request rest v q n,
      comp_evid_requests this = requests ++ request :: rest ->
      (forall r, In r requests -> comp_evid_matches r v q n = false) ->
      comp_evid_matches request v q n = true ->
      fst (check_off_comp_evid_request this v q n) = true /\
      comp_evid_requests (snd (check_off_comp_evid_request this v q n))
      = requests ++ rest) /\
  (forall cid pi x,
      let this := imv_attestation_state_create cid pi in
      let q := mk_pts_qualifier 1 0 2 in
      check_off_comp_evid_request (add_comp_evid_request this 7 q x) 7 q x
      = (true, this) /\
      check_off_comp_evid_request this 7 q x = (false, this)) /\
  (forall this v q n,
      pending_matching this v q n = 0%nat ->
      check_off_comp_evid_request (add_comp_evid_request this v q n) v q n
      = (true, this) /\
      check_off_comp_evid_request this v q n = (false, this)) /\
  (forall cid pi x v q n,
      let this1 :=
        add_comp_evid_request (imv_attestation_state_create cid pi)
          7 (mk_pts_qualifier 1 0 2) x in
      (v, kernel q, sub_component q, type q, n) <> (7, 1, 0, 2, x) ->
      check_off_comp_evid_request this1 v q n = (false, this1)).
Proof.
  split; [exact comp_evid_matches_iff|]. split; [|split; [|split]].
  - intros this requests request rest v q n Hl Hnone Hmatch.
    unfold check_off_comp_evid_request. rewrite Hl.
    rewrite (comp_enumerate_first_match _ _ _ _ _ _ Hnone Hmatch).
    split; reflexivity.
  - intros cid pi x this q. apply comp_evid_add_check_off.
    unfold pending_matching. subst this.
    now rewrite create_comp_evid_requests.
  - exact comp_evid_add_check_off.
  - intros cid pi x v q n this1 Hdiff.
    unfold check_off_comp_evid_request.
    rewrite comp_enumerate_none; [now rewrite state_eta|].
    intros r Hr. subst this1.
    cbn [add_comp_evid_request comp_evid_requests] in Hr.
    rewrite create_comp_evid_requests in Hr.
    destruct Hr as [<-|[]].
    destruct (comp_evid_matches _ v q n) eqn:E; [|reflexivity].
    apply comp_evid_matches_iff in E. simpl in E.
    destruct E as (E1 & E2 & E3 & E4 & E5).
    exfalso. apply Hdiff. congruence.
Qed.

Lemma comp_evid_exact_match_witness :
  let this := imv_attestation_state_create 0 None in
  let q := mk_pts_qualifier 1 0 2 in
  let this1 := add_comp_evid_request this 7 q 5 in
  (check_off_comp_evid_request this1 7 q 5 = (true, this) /\
   check_off_comp_evid_request this 7 q 5 = (false, this)) /\
  check_off_comp_evid_request this1 7 (mk_pts_qualifier 1 1 2) 5
  = (false, this1) /\
  (fst (check_off_comp_evid_request
          (add_comp_evid_request this1 7 q 5) 7 q 5) = true /\
   comp_evid_requests
     (snd (check_off_comp_evid_request
             (add_comp_evid_request this1 7 q 5) 7 q 5))
   = [] ++ [mk_comp_evid_request 7 q 5]).
Proof.
  split; [|split].
  - apply (proj1 (proj2 (proj2 (proj2 comp_evid_exact_match)))
             (imv_attestation_state_create 0 None) 7
             (mk_pts_qualifier 1 0 2) 5).
    reflexivity.
  - apply (proj2 (proj2 (proj2 (proj2 comp_evid_exact_match))) 0 None 5 7
             (mk_pts_qualifier 1 1 2) 5).
    discriminate.
  - apply (proj1 (proj2 comp_evid_exact_match)
             (add_comp_evid_request
                (add_comp_evid_request (imv_attestation_state_create 0 None)
                   7 (mk_pts_qualifier 1 0 2) 5)
                7 (mk_pts_qualifier 1 0 2) 5)
             [] (mk_comp_evid_request 7 (mk_pts_qualifier 1 0 2) 5)
             [mk_comp_evid_request 7 (mk_pts_qualifier 1 0 2) 5]
             7 (mk_pts_qualifier 1 0 2) 5).
    + reflexivity.
    + intros r [].
    + reflexivity.
Defined.

Section MeasurementError.

Implicit Types (this : private_imv_attestation_state_t) (calls : list call).

(** No call resets the flag: a call leaves it as it is or sets it. *)
Lemma step_measurement_error c this :
  measurement_error (snd (step c this))
  = match c with
    | Call_set_measurement_error => true
    | _ => measurement_error this
    end.
Proof. destruct c; simpl; destruct_enumerate; reflexivity. Qed.

Lemma run_measurement_error calls this :
  measurement_error this = true ->
  measurement_error (snd (run calls this)) = true.
Proof.
  revert this. induction calls as [|c calls IH]; intros this H;
    [assumption|].
  rewrite run_cons. cbn [snd]. apply IH.
  rewrite step_measurement_error. now destruct c.
Qed.

Lemma set_measurement_error_times_set n this :
  measurement_error (set_measurement_error_times (S n) this) = true.
Proof.
  revert this. induction n as [|n IH]; intros this; [reflexivity|].
  change (set_measurement_error_times (S (S n)) this)
    with (set_measurement_error_times (S n) (set_measurement_error this)).
  apply IH.
Qed.

End MeasurementError.

(** C7: the measurement-error flag is FALSE on a fresh state object; after
    one or more calls of [set_measurement_error], [get_measurement_error]
    returns TRUE, and it still does after any further sequence of calls on
    the object. *)
Theorem measurement_error_monotone :
  (forall cid pi,
      get_measurement_error (imv_attestation_state_create cid pi) = false) /\
  (forall this n,
      get_measurement_error (set_measurement_error_times (S n) this) = true) /\
  (forall this n calls,
      get_measurement_error
        (snd (run calls (set_measurement_error_times (S n) this))) = true).
Proof.
  split; [|split].
  - intros cid pi. now destruct pi.
  - intros this n. apply set_measurement_error_times_set.
  - intros this n calls. unfold get_measurement_error.
    apply run_measurement_error, set_measurement_error_times_set.
Qed.

(* ================================================================== *)
(** * Properties of transaction_create                                 *)
(* ================================================================== *)

Import Transaction.

Section TransactionCreate.

Variables ike_sa_t transaction_t : Type.
Variables ike_sa_init_create delete_ike_sa_create dead_peer_detection_create
  : ike_sa_t -> Z -> option transaction_t.

(** The CREATE_CHILD_SA loop has no branch that builds a transaction. *)
Lemma create_child_sa_loop_null iterator :
  create_child_sa_loop iterator (@NULL transaction_t) = NULL.
Proof.
  induction iterator as [|current iterator IH]; simpl; [reflexivity|].
  destruct current as [[|code] [| | |code']|protocol_id|code];
    assumption.
Qed.

(** The other exchange types of a request: IKE_SA_INIT yields what
    [ike_sa_init_create] builds, CREATE_CHILD_SA yields NULL whatever the
    payloads, INFORMATIONAL with no payload yields what
    [dead_peer_detection_create] builds. *)
Lemma transaction_create_request ike_sa message_id iterator :
  transaction_create ike_sa_init_create delete_ike_sa_create
    dead_peer_detection_create ike_sa
    (mk_message true message_id IKE_SA_INIT iterator)
  = ike_sa_init_create ike_sa message_id /\
  transaction_create ike_sa_init_create delete_ike_sa_create
    dead_peer_detection_create ike_sa
    (mk_message true message_id CREATE_CHILD_SA iterator)
  = NULL /\
  transaction_create ike_sa_init_create delete_ike_sa_create
    dead_peer_detection_create ike_sa
    (mk_message true message_id INFORMATIONAL [])
  = dead_peer_detection_create ike_sa message_id.
Proof.
  split; [reflexivity|]. split; [|reflexivity].
  apply create_child_sa_loop_null.
Qed.

End TransactionCreate.

(** C10: whatever the three constructors build, [transaction_create]
    returns NULL for every message that is not a request, and for every
    request whose exchange type is IKE_AUTH. *)
Theorem transaction_create_null :
  forall (ike_sa_t transaction_t : Type)
         (ike_sa_init_create delete_ike_sa_create dead_peer_detection_create
            : ike_sa_t -> Z -> option transaction_t)
         (ike_sa : ike_sa_t) (request : message_t),
    get_request request = false \/
    (get_request request = true /\ get_exchange_type request = IKE_AUTH) ->
    transaction_create ike_sa_init_create delete_ike_sa_create
      dead_peer_detection_create ike_sa request = NULL.
Proof.
  intros ike_sa_t transaction_t c1 c2 c3 ike_sa request [Hreq|[Hreq Htype]];
    unfold transaction_create; rewrite Hreq; cbn [negb].
  - reflexivity.
  - now rewrite Htype.
Qed.

Lemma transaction_create_null_witness :
  let create :=
    transaction_create (fun ike_sa message_id : Z => Some (1, message_id))
      (fun ike_sa message_id : Z => Some (2, message_id))
      (fun ike_sa message_id : Z => Some (3, message_id)) in
  create 9 (mk_message false 0 IKE_SA_INIT [DELETE PROTO_IKE]) = NULL
  /\ create 9 (mk_message true 1 IKE_AUTH [DELETE PROTO_IKE]) = NULL.
Proof.
  split.
  - apply (transaction_create_null Z (Z * Z)%type
             (fun ike_sa message_id : Z => Some (1, message_id))
             (fun ike_sa message_id : Z => Some (2, message_id))
             (fun ike_sa message_id : Z => Some (3, message_id))
             9 (mk_message false 0 IKE_SA_INIT [DELETE PROTO_IKE])).
    left. reflexivity.
  - apply (transaction_create_null Z (Z * Z)%type
             (fun ike_sa message_id : Z => Some (1, message_id))
             (fun ike_sa message_id : Z => Some (2, message_id))
             (fun ike_sa message_id : Z => Some (3, message_id))
             9 (mk_message true 1 IKE_AUTH [DELETE PROTO_IKE])).
    right. split; reflexivity.
Defined.

(* ================================================================== *)
(** * Instances                                                        *)
(* ================================================================== *)

Lemma tag_with_blanks_selects_entry_witness :
  let this := imv_attestation_state_create 0 None in
  let de := nth 2 reasons reasons_0 in
  get_reason_string 1 this
    ([SPACE; TAB] ++ chunk_create (lang de) ++ repeat SPACE 2
       ++ COMMA :: chunk_create " fr")
  = Some (reason_of de)
  /\ get_reason_string 1 this
       ([SPACE; TAB] ++ chunk_create (lang de) ++ repeat SPACE 2)
     = Some (reason_of de).
Proof.
  apply (tag_with_blanks_selects_entry (imv_attestation_state_create 0 None)
           [SPACE; TAB] (nth 2 reasons reasons_0) 2 (chunk_create " fr") 0).
  - repeat constructor.
  - simpl. tauto.
Defined.

Lemma unmatched_final_token_no_result_witness :
  get_reason_string 1000 (imv_attestation_state_create 0 None)
    ([SPACE] ++ chunk_create "fr" ++ repeat SPACE 3) = None.
Proof.
  apply (unmatched_final_token_no_result
           (imv_attestation_state_create 0 None) [SPACE] (chunk_create "fr") 3).
  - repeat constructor.
  - discriminate.
  - reflexivity.
  - simpl. intuition discriminate.
  - discriminate.
  - reflexivity.
Defined.

Lemma next_id_fresh_before_wrap_witness :
  let calls := [Call_add_file_meas_request 1 false;
                Call_check_off_file_meas_request 1 0 false;
                Call_add_file_meas_request 2 true] in
  let this := snd (run calls (imv_attestation_state_create 0 None)) in
  pending_with_id this (fst (add_file_meas_request this 42 true)) = 0%nat.
Proof.
  apply (next_id_fresh_before_wrap 0 None
           [Call_add_file_meas_request 1 false;
            Call_check_off_file_meas_request 1 0 false;
            Call_add_file_meas_request 2 true] 42 true).
  reflexivity.
Defined.

(* ================================================================== *)
(** * Further properties of the file-measurement registry              *)
(* ================================================================== *)

Section FileRegistryInvariants.

Implicit Types (this : private_imv_attestation_state_t)
  (requests : list file_meas_request_t) (calls : list call).

(** The first entry with a given id splits the list around it. *)
Lemma first_with_id requests id0 :
  In id0 (map id requests) ->
  exists l1 x l2,
    requests = l1 ++ x :: l2 /\ ~ In id0 (map id l1) /\ id x = id0.
Proof.
  induction requests as [|request rest IH]; simpl; [intros []|].
  destruct (Z.eq_dec (id request) id0) as [E|NE]; intros H.
  - exists [], request, rest. simpl. tauto.
  - destruct H as [H|H]; [contradiction|].
    destruct (IH H) as (l1 & x & l2 & -> & Hl1 & Hx).
    exists (request :: l1), x, l2. simpl. intuition.
Qed.

(** The entries an enumeration leaves are entries it was given. *)
Lemma enumerate_incl requests id0 f0 d0 r :
  In r (snd (check_off_file_enumerate requests id0 f0 d0)) -> In r requests.
Proof.
  induction requests as [|request rest IH]; simpl; [tauto|].
  destruct (id request =? id0); simpl; [tauto|].
  destruct (check_off_file_enumerate rest id0 f0 d0) as [res rest'].
  simpl in *. intuition.
Qed.

Lemma enumerate_sorted requests id0 f0 d0 :
  StronglySorted Z.lt (map id requests) ->
  StronglySorted Z.lt
    (map id (snd (check_off_file_enumerate requests id0 f0 d0))).
Proof.
  induction requests as [|request rest IH]; simpl; intros H; [constructor|].
  apply StronglySorted_inv in H as [Hrest Hall].
  destruct (id request =? id0); simpl; [assumption|].
  pose proof (enumerate_incl rest id0 f0 d0) as Hincl.
  destruct (check_off_file_enumerate rest id0 f0 d0) as [res rest'].
  simpl in *. constructor; [now apply IH|].
  rewrite Forall_forall in *. intros k Hk.
  apply in_map_iff in Hk as (r & <- & Hr).
  apply Hall, in_map, Hincl, Hr.
Qed.

Lemma sorted_snoc (l : list Z) x :
  StronglySorted Z.lt l -> Forall (fun k => k < x) l ->
  StronglySorted Z.lt (l ++ [x]).
Proof.
  induction 1 as [|k l Hs IH Hk]; simpl; intros Hall.
  - repeat constructor.
  - inversion Hall as [|? ? Hkx Hl]; subst.
    constructor; [now apply IH|].
    apply Forall_app. split; [assumption|]. now repeat constructor.
Qed.

(** The list of pending requests after one call. *)
Lemma step_file_meas_requests c this :
  file_meas_requests (snd (step c this))
  = match c with
    | Call_add_file_meas_request f d =>
        file_meas_requests this
        ++ [mk_file_meas_request
              (u_int16 (file_meas_request_counter this + 1)) f d]
    | Call_check_off_file_meas_request id0 f0 d0 =>
        snd (check_off_file_enumerate (file_meas_requests this) id0 f0 d0)
    | _ => file_meas_requests this
    end.
Proof. destruct c; simpl; destruct_enumerate; reflexivity. Qed.

(** While the counter does not wrap, the pending ids stay sorted in the
    order of the list and between 1 and the counter. *)
Lemma run_sorted calls this :
  0 <= file_meas_request_counter this ->
  file_meas_request_counter this + Z.of_nat (file_adds calls)
  < UINT16_MODULUS ->
  StronglySorted Z.lt (map id (file_meas_requests this)) ->
  Forall (fun k => 1 <= k <= file_meas_request_counter this)
    (map id (file_meas_requests this)) ->
  StronglySorted Z.lt (map id (file_meas_requests (snd (run calls this)))) /\
  Forall (fun k => 1 <= k <= file_meas_request_counter this
                              + Z.of_nat (file_adds calls))
    (map id (file_meas_requests (snd (run calls this)))).
Proof.
  revert this. induction calls as [|c calls IH]; intros this H0 Hn Hs Hb.
  - simpl. split; [assumption|].
    eapply Forall_impl; [|exact Hb]. simpl. intros; lia.
  - rewrite run_cons. cbn [snd].
    assert (Hstep :
      0 <= file_meas_request_counter (snd (step c this)) /\
      file_meas_request_counter (snd (step c this))
      = file_meas_request_counter this
        + Z.of_nat (file_adds (c :: calls)) - Z.of_nat (file_adds calls) /\
      StronglySorted Z.lt (map id (file_meas_requests (snd (step c this)))) /\
      Forall (fun k => 1 <= k <= file_meas_request_counter (snd (step c this)))
        (map id (file_meas_requests (snd (step c this))))).
    { rewrite step_counter, step_file_meas_requests.
      unfold u_int16, UINT16_MODULUS in *.
      destruct c; cbn [file_adds] in *;
        try (split; [lia|split; [lia|split; assumption]]).
      - (* add *)
        rewrite Z.mod_small by lia. split; [lia|]. split; [lia|].
        rewrite map_app. cbn [map id]. split.
        + apply sorted_snoc; [assumption|].
          eapply Forall_impl; [|exact Hb]. simpl. intros; lia.
        + apply Forall_app. split.
          * eapply Forall_impl; [|exact Hb]. simpl. intros; lia.
          * repeat constructor; lia.
      - (* check-off *)
        split; [lia|]. split; [lia|]. split; [now apply enumerate_sorted|].
        rewrite Forall_forall in *. intros k Hk.
        apply in_map_iff in Hk as (r & <- & Hr).
        apply Hb, in_map. eapply enumerate_incl, Hr. }
    destruct Hstep as (H0' & Hc & Hs' & Hb').
    destruct (IH (snd (step c this))) as [Hs'' Hb'']; try assumption; try lia.
    split; [assumption|].
    eapply Forall_impl; [|exact Hb'']. cbn beta. intros; lia.
Qed.

(** How a call changes the number of pending requests. *)
Lemma step_length c this :
  (List.length (file_meas_requests (snd (step c this)))
   + List.length (checked_off_ids (fst (step c this)))
   = List.length (file_meas_requests this)
     + List.length (issued_ids (fst (step c this))))%nat.
Proof.
  destruct c; try (simpl; lia).
  - simpl. unfold insert_last. rewrite length_app. simpl. lia.
  - cbn [step]. unfold check_off_file_meas_request.
    pose proof (enumerate_length (file_meas_requests this) id0 file_id0
                  is_dir0) as Hl.
    destruct (check_off_file_enumerate _ _ _ _) as [r requests'].
    cbn [fst snd file_meas_requests].
    destruct (found r); simpl; lia.
  - cbn [step fst snd]. unfold check_off_comp_evid_request.
    destruct (check_off_comp_enumerate _ _ _ _). simpl. lia.
Qed.

Lemma run_length calls this :
  (List.length (file_meas_requests (snd (run calls this)))
   + List.length (checked_off_ids (fst (run calls this)))
   = List.length (file_meas_requests this)
     + List.length (issued_ids (fst (run calls this))))%nat.
Proof.
  revert this. induction calls as [|c calls IH]; intros this.
  - simpl. lia.
  - rewrite run_cons. cbn [fst snd].
    rewrite issued_ids_app, checked_off_ids_app, !length_app.
    pose proof (step_length c this). specialize (IH (snd (step c this))).
    lia.
Qed.

End FileRegistryInvariants.

(** Whatever the calls on a state object since its creation, the count
    [get_file_meas_request_count] reports is the number of ids issued (one
    for each add) minus the number of successful check-offs: no request is
    dropped or counted twice. *)
Theorem file_meas_request_count_balance :
  forall cid pi calls,
    let log := fst (run calls (imv_attestation_state_create cid pi)) in
    let this := snd (run calls (imv_attestation_state_create cid pi)) in
    List.length (issued_ids log) = file_adds calls /\
    get_file_meas_request_count this
    = Z.of_nat (file_adds calls)
      - Z.of_nat (List.length (checked_off_ids log)).
Proof.
  intros cid pi calls log this.
  assert (Hissued : List.length (issued_ids log) = file_adds calls).
  { subst log. now rewrite run_issued_ids, length_map, length_seq. }
  split; [assumption|].
  pose proof (run_length calls (imv_attestation_state_create cid pi)) as H.
  fold log this in H. rewrite create_file_meas_requests in H. simpl in H.
  unfold get_file_meas_request_count, get_count. lia.
Qed.

(** On a state object that has been asked for fewer than 2^16 ids since
    its creation, the pending requests stand in the list in the order of
    their ids, which are pairwise distinct and lie between 1 and the
    number of adds. *)
Theorem pending_ids_sorted_before_wrap :
  forall cid pi calls,
    Z.of_nat (file_adds calls) < UINT16_MODULUS ->
    let pending :=
      map id (file_meas_requests
                (snd (run calls (imv_attestation_state_create cid pi)))) in
    StronglySorted Z.lt pending /\ NoDup pending /\
    Forall (fun k => 1 <= k <= Z.of_nat (file_adds calls)) pending.
Proof.
  intros cid pi calls Hn pending.
  destruct (run_sorted calls (imv_attestation_state_create cid pi))
    as [Hs Hb].
  - rewrite create_counter. lia.
  - now rewrite create_counter.
  - rewrite create_file_meas_requests. constructor.
  - rewrite create_file_meas_requests. constructor.
  - rewrite create_counter in Hb. fold pending in Hs, Hb.
    split; [assumption|]. split; [now apply sorted_lt_nodup|assumption].
Qed.

Lemma pending_ids_sorted_before_wrap_witness :
  let calls := [Call_add_file_meas_request 10 false;
                Call_add_file_meas_request 11 true;
                Call_add_file_meas_request 12 false;
                Call_check_off_file_meas_request 2 0 false] in
  let pending :=
    map id (file_meas_requests
              (snd (run calls (imv_attestation_state_create 0 None)))) in
  pending = [1; 3] /\
  StronglySorted Z.lt pending /\ NoDup pending /\
  Forall (fun k => 1 <= k <= 3) pending.
Proof.
  split; [reflexivity|].
  apply (pending_ids_sorted_before_wrap 0 None
           [Call_add_file_meas_request 10 false;
            Call_add_file_meas_request 11 true;
            Call_add_file_meas_request 12 false;
            Call_check_off_file_meas_request 2 0 false]).
  reflexivity.
Defined.

(** [check_off_file_meas_request] either finds no entry with the id and
    changes nothing, or removes the first entry with the id, hands out its
    payload, and leaves the other entries in their order and every other
    member of the state object as it was. *)
Theorem check_off_file_first_match :
  forall this id0 f0 d0,
    (~ In id0 (map id (file_meas_requests this)) /\
     check_off_file_meas_request this id0 f0 d0
     = (mk_check_off_result false f0 d0, this)) \/
    (exists l1 x l2,
        file_meas_requests this = l1 ++ x :: l2 /\
        ~ In id0 (map id l1) /\ id x = id0 /\
        check_off_file_meas_request this id0 f0 d0
        = (mk_check_off_result true (file_id x) (is_dir x),
           with_file_meas_requests this (l1 ++ l2))).
Proof.
  intros this id0 f0 d0.
  destruct (in_dec Z.eq_dec id0 (map id (file_meas_requests this)))
    as [Hin|Hout].
  - right. destruct (first_with_id _ _ Hin) as (l1 & x & l2 & Hl & Hl1 & Hx).
    exists l1, x, l2. repeat split; try assumption.
    unfold check_off_file_meas_request. rewrite Hl.
    now rewrite (enumerate_first_match l1 x l2 id0 f0 d0 Hl1 Hx).
  - left. split; [assumption|].
    apply check_off_absent. now apply count_occ_not_In.
Qed.

(** A check-off touches only requests with the id it is given: for every
    id, the number of pending requests with it is the same after the call,
    but for the one request removed when the call succeeds. *)
Theorem check_off_file_other_ids_kept :
  forall this id0 f0 d0 k,
    pending_with_id this k
    = (pending_with_id (snd (check_off_file_meas_request this id0 f0 d0)) k
       + (if found (fst (check_off_file_meas_request this id0 f0 d0))
             && Z.eqb k id0
          then 1 else 0))%nat.
Proof.
  intros this id0 f0 d0 k. unfold pending_with_id, check_off_file_meas_request.
  pose proof (enumerate_count (file_meas_requests this) id0 f0 d0 k) as H.
  destruct (check_off_file_enumerate _ _ _ _) as [r requests'].
  cbn [fst snd file_meas_requests]. rewrite H.
  destruct (found r); cbn [andb count_occ]; [|reflexivity].
  destruct (Z.eq_dec id0 k) as [->|NE].
  - now rewrite Z.eqb_refl.
  - destruct (Z.eqb_spec k id0); [congruence|reflexivity].
Qed.

(* ================================================================== *)
(** * Further properties of the component-evidence registry            *)
(* ================================================================== *)

Section ComponentRegistryInvariants.

Implicit Types (this : private_imv_attestation_state_t)
  (requests : list comp_evid_request_t) (q : pts_qualifier_t).

(** The first entry that matches a tuple splits the list around it. *)
Lemma first_matching requests v q n :
  (exists r, In r requests /\ comp_evid_matches r v q n = true) ->
  exists l1 x l2,
    requests = l1 ++ x :: l2 /\
    (forall r, In r l1 -> comp_evid_matches r v q n = false) /\
    comp_evid_matches x v q n = true.
Proof.
  induction requests as [|request rest IH]; intros (r & Hin & Hr);
    [destruct Hin|].
  destruct (comp_evid_matches request v q n) eqn:E.
  - exists [], request, rest. simpl. intuition.
  - destruct Hin as [->|Hin]; [congruence|].
    destruct IH as (l1 & x & l2 & -> & Hl1 & Hx); [now exists r|].
    exists (request :: l1), x, l2. simpl. repeat split; try assumption.
    intros r' [<-|Hr']; [assumption|now apply Hl1].
Qed.

(** Two tuples that a request both matches are the same tuple. *)
Lemma comp_evid_matches_same x v q n v' q' n' :
  comp_evid_matches x v q n = true ->
  comp_evid_matches x v' q' n'
  = comp_evid_matches (mk_comp_evid_request v q n) v' q' n'.
Proof.
  intros H. apply comp_evid_matches_iff in H.
  destruct H as (E1 & E2 & E3 & E4 & E5).
  unfold comp_evid_matches. cbn [vendor_id qualifier name].
  now rewrite E1, E2, E3, E4, E5.
Qed.

Lemma add_comp_evid_request_times_eq k this v q n :
  add_comp_evid_request_times k this v q n
  = with_comp_evid_requests this
      (comp_evid_requests this ++ repeat (mk_comp_evid_request v q n) k).
Proof.
  induction k as [|k IH]; cbn [add_comp_evid_request_times repeat].
  - unfold with_comp_evid_requests. now rewrite app_nil_r, state_eta.
  - rewrite IH. unfold add_comp_evid_request, with_comp_evid_requests,
      insert_last. cbn [connection_id state handshake_state rec eval
      file_meas_request_counter file_meas_requests comp_evid_requests pts
      measurement_error].
    rewrite <- app_assoc. do 2 f_equal.
    symmetry. apply (repeat_cons k).
Qed.

(** The two ways an enumeration ends. *)
Lemma comp_enumerate_cases requests v q n :
  ((forall r, In r requests -> comp_evid_matches r v q n = false) /\
   check_off_comp_enumerate requests v q n = (false, requests)) \/
  (exists l1 x l2,
      requests = l1 ++ x :: l2 /\
      (forall r, In r l1 -> comp_evid_matches r v q n = false) /\
      comp_evid_matches x v q n = true /\
      check_off_comp_enumerate requests v q n = (true, l1 ++ l2)).
Proof.
  destruct (existsb (fun r => comp_evid_matches r v q n) requests) eqn:E.
  - right. apply existsb_exists in E.
    destruct (first_matching _ _ _ _ E) as (l1 & x & l2 & -> & Hl1 & Hx).
    exists l1, x, l2. repeat split; try assumption.
    now apply comp_enumerate_first_match.
  - left.
    assert (Hno : forall r, In r requests ->
                            comp_evid_matches r v q n = false).
    { intros r Hr. destruct (comp_evid_matches r v q n) eqn:Er;
        [|reflexivity].
      assert (Hex : existsb (fun r => comp_evid_matches r v q n) requests
                    = true)
        by (apply existsb_exists; now exists r).
      congruence. }
    split; [assumption|]. now apply comp_enumerate_none.
Qed.

End ComponentRegistryInvariants.

(** [check_off_comp_evid_request] either finds no request that matches
    the tuple and changes nothing, or removes the first request that
    matches it and leaves the other requests in their order and every
    other member of the state object as it was. *)
Theorem check_off_comp_first_match :
  forall this v q n,
    ((forall r, In r (comp_evid_requests this) ->
                comp_evid_matches r v q n = false) /\
     check_off_comp_evid_request this v q n = (false, this)) \/
    (exists l1 x l2,
        comp_evid_requests this = l1 ++ x :: l2 /\
        (forall r, In r l1 -> comp_evid_matches r v q n = false) /\
        comp_evid_matches x v q n = true /\
        check_off_comp_evid_request this v q n
        = (true, with_comp_evid_requests this (l1 ++ l2))).
Proof.
  intros this v q n. unfold check_off_comp_evid_request.
  destruct (comp_enumerate_cases (comp_evid_requests this) v q n)
    as [[Hno ->]|(l1 & x & l2 & Hl & Hl1 & Hx & ->)].
  - left. split; [assumption|]. now rewrite state_eta.
  - right. exists l1, x, l2. repeat split; assumption.
Qed.

(** A component check-off succeeds exactly when a pending request matches
    the tuple; it then lowers the count by one, and the number of pending
    requests that match any tuple (v', q', n') stays the same unless that
    tuple is the one checked off. *)
Theorem check_off_comp_counts :
  forall this v q n v' q' n',
    let found := fst (check_off_comp_evid_request this v q n) in
    let this' := snd (check_off_comp_evid_request this v q n) in
    (found = true <-> (0 < pending_matching this v q n)%nat) /\
    get_comp_evid_request_count this
    = get_comp_evid_request_count this' + (if found then 1 else 0) /\
    pending_matching this v' q' n'
    = (pending_matching this' v' q' n'
       + (if found
             && comp_evid_matches (mk_comp_evid_request v q n) v' q' n'
          then 1 else 0))%nat.
Proof.
  intros this v q n v' q' n' found this'. subst found this'.
  unfold pending_matching, get_comp_evid_request_count, get_count,
    check_off_comp_evid_request.
  destruct (comp_enumerate_cases (comp_evid_requests this) v q n)
    as [[Hno ->]|(l1 & x & l2 & Hl & Hl1 & Hx & ->)];
    cbn [fst snd comp_evid_requests].
  - split; [|split; [lia|cbn [andb]; lia]].
    split; [discriminate|]. intros Hpos. exfalso.
    destruct (filter (fun r => comp_evid_matches r v q n)
                (comp_evid_requests this)) as [|r l] eqn:Ef;
      [simpl in Hpos; lia|].
    assert (Hr : In r (filter (fun r => comp_evid_matches r v q n)
                         (comp_evid_requests this)))
      by (rewrite Ef; now left).
    apply filter_In in Hr as [Hin Hr]. rewrite (Hno r Hin) in Hr.
    discriminate.
  - rewrite Hl.
    rewrite !filter_app, !length_app. cbn [filter List.length andb].
    rewrite Hx, (comp_evid_matches_same x v q n v' q' n' Hx).
    cbn [List.length]. split; [|split].
    + split; [intros _; lia|reflexivity].
    + lia.
    + destruct (comp_evid_matches (mk_comp_evid_request v q n) v' q' n');
        cbn [List.length]; lia.
Qed.

(** Duplicates are separate entries: on a registry that holds no request
    with the tuple, after [k]+1 adds of the tuple a check-off leaves the
    state object of [k] adds, so the requests are checked off one by one
    and the check-off after the last of them fails. *)
Theorem comp_evid_duplicates_one_by_one :
  forall this v q n k,
    pending_matching this v q n = 0%nat ->
    check_off_comp_evid_request
      (add_comp_evid_request_times (S k) this v q n) v q n
    = (true, add_comp_evid_request_times k this v q n) /\
    check_off_comp_evid_request
      (add_comp_evid_request_times 0 this v q n) v q n
    = (false, this) /\
    pending_matching (add_comp_evid_request_times k this v q n) v q n = k.
Proof.
  intros this v q n k Hnone.
  pose proof (pending_matching_none this v q n Hnone) as Hno.
  split; [|split].
  - rewrite !add_comp_evid_request_times_eq.
    unfold check_off_comp_evid_request, with_comp_evid_requests.
    cbn [comp_evid_requests repeat].
    rewrite (comp_enumerate_first_match _ _ _ _ _ _ Hno
               (comp_evid_matches_self v q n)).
    reflexivity.
  - cbn [add_comp_evid_request_times].
    now apply comp_evid_add_check_off.
  - rewrite add_comp_evid_request_times_eq.
    unfold pending_matching in *. unfold with_comp_evid_requests.
    cbn [comp_evid_requests]. rewrite filter_app, length_app, Hnone.
    cbn [Nat.add]. clear.
    induction k as [|k IH]; [reflexivity|].
    cbn [repeat filter]. rewrite comp_evid_matches_self.
    cbn [List.length]. now rewrite IH.
Qed.

Lemma comp_evid_duplicates_one_by_one_witness :
  let this := imv_attestation_state_create 0 None in
  let q := mk_pts_qualifier 1 0 2 in
  check_off_comp_evid_request
    (add_comp_evid_request_times 3 this 7 q 5) 7 q 5
  = (true, add_comp_evid_request_times 2 this 7 q 5) /\
  check_off_comp_evid_request
    (add_comp_evid_request_times 0 this 7 q 5) 7 q 5
  = (false, this) /\
  pending_matching (add_comp_evid_request_times 2 this 7 q 5) 7 q 5 = 2%nat.
Proof.
  apply (comp_evid_duplicates_one_by_one
           (imv_attestation_state_create 0 None) 7 (mk_pts_qualifier 1 0 2)
           5 2).
  reflexivity.
Defined.

(* ================================================================== *)
(** * What a sequence of calls leaves in the other members             *)
(* ================================================================== *)

Section Members.

Implicit Types (this : private_imv_attestation_state_t) (calls : list call).

Lemma step_members c this :
  connection_id (snd (step c this)) = connection_id this /\
  state (snd (step c this)) = final_connection_state [c] (state this) /\
  handshake_state (snd (step c this))
  = final_handshake_state [c] (handshake_state this) /\
  get_recommendation (snd (step c this))
  = final_recommendation [c] (get_recommendation this).
Proof.
  unfold get_recommendation.
  destruct c; simpl; destruct_enumerate; repeat split; reflexivity.
Qed.

Lemma final_cons c calls :
  (forall s, final_connection_state (c :: calls) s
             = final_connection_state calls (final_connection_state [c] s)) /\
  (forall h, final_handshake_state (c :: calls) h
             = final_handshake_state calls (final_handshake_state [c] h)) /\
  (forall r, final_recommendation (c :: calls) r
             = final_recommendation calls (final_recommendation [c] r)).
Proof. destruct c; repeat split; reflexivity. Qed.

Lemma step_sets_measurement_error c this :
  measurement_error (snd (step c this))
  = measurement_error this || sets_measurement_error [c].
Proof.
  rewrite step_measurement_error.
  destruct c; cbn [sets_measurement_error];
    rewrite ?orb_false_r, ?orb_true_r; reflexivity.
Qed.

End Members.

(** Over any sequence of calls the connection id stays what it was, and
    connection state, handshake state and recommendation/evaluation are
    what their last setter in the sequence wrote (or what they were when
    the sequence holds no setter): the registry operations and the error
    flag do not touch them. *)
Theorem members_follow_last_setter :
  forall calls this,
    let this' := snd (run calls this) in
    get_connection_id this' = get_connection_id this /\
    state this' = final_connection_state calls (state this) /\
    get_handshake_state this'
    = final_handshake_state calls (get_handshake_state this) /\
    get_recommendation this'
    = final_recommendation calls (get_recommendation this).
Proof.
  unfold get_connection_id, get_handshake_state.
  induction calls as [|c calls IH]; intros this.
  - repeat split.
  - cbn zeta in *. rewrite run_cons. cbn [snd].
    destruct (IH (snd (step c this))) as (H1 & H2 & H3 & H4).
    destruct (step_members c this) as (S1 & S2 & S3 & S4).
    destruct (final_cons c calls) as (F2 & F3 & F4).
    rewrite H1, H2, H3, H4, S1, S2, S3, S4, F2, F3, F4.
    repeat split.
Qed.

(** After any sequence of calls [get_measurement_error] returns TRUE
    exactly when the flag was set before or the sequence holds a
    [set_measurement_error]: no other method sets it. *)
Theorem measurement_error_only_by_setter :
  forall calls this,
    get_measurement_error (snd (run calls this))
    = measurement_error this || sets_measurement_error calls.
Proof.
  unfold get_measurement_error.
  induction calls as [|c calls IH]; intros this.
  - simpl. now rewrite orb_false_r.
  - rewrite run_cons. cbn [snd]. rewrite IH, step_sets_measurement_error.
    destruct c; cbn [sets_measurement_error];
      rewrite ?orb_false_r, ?orb_true_r; reflexivity.
Qed.

(* ================================================================== *)
(** * Further properties of get_reason_string                          *)
(* ================================================================== *)

Section ReasonStringRounds.

Variable this : private_imv_attestation_state_t.

Implicit Types (pl tok ws rest : chunk_t) (r : reason_result).

Lemma find_reason_in table tok s l :
  find_reason table tok = Some (s, l) ->
  exists e, In e table /\
            s = chunk_create (string_ e) /\ l = chunk_create (lang e).
Proof.
  induction table as [|e table IH]; simpl; [discriminate|].
  destruct (chunk_equals (chunk_create (lang e)) tok).
  - intros H. injection H as <- <-. exists e. tauto.
  - intros H. destruct (IH H) as (e' & He' & Hs & Hl).
    exists e'. tauto.
Qed.

(** What a round returns comes from the table. *)
Lemma loop_body_return pl s l :
  loop_body pl = Return s l ->
  exists e, In e reasons /\ mk_reason_result true s l = reason_of e.
Proof.
  unfold loop_body. destruct (eat_whitespace pl) as [[|] pl1]; [|discriminate].
  destruct (extract_token COMMA pl1) as [[ok tok] rest].
  destruct (find_reason reasons _) as [[s' l']|] eqn:E; [|discriminate].
  intros H. injection H as <- <-.
  destruct (find_reason_in _ _ _ _ E) as (e & He & -> & ->).
  exists e. split; [assumption|reflexivity].
Qed.

Lemma skip_whitespace_length src :
  (List.length (skip_whitespace src) <= List.length src)%nat.
Proof.
  induction src as [|c src IH]; simpl; [lia|].
  destruct (is_whitespace c); simpl; lia.
Qed.

Lemma skip_whitespace_idem src :
  skip_whitespace (skip_whitespace src) = skip_whitespace src.
Proof.
  induction src as [|c src IH]; simpl; [reflexivity|].
  destruct (is_whitespace c) eqn:E; [assumption|].
  simpl. now rewrite E.
Qed.

Lemma memchr_bound t src eot :
  memchr t src = Some eot -> (eot < List.length src)%nat.
Proof.
  revert eot. induction src as [|c src IH]; simpl; intros eot;
    [discriminate|].
  destruct (Ascii.eqb c t).
  - intros H. injection H as <-. lia.
  - destruct (memchr t src) as [e|]; simpl; [|discriminate].
    intros H. injection H as <-. specialize (IH e eq_refl). lia.
Qed.

(** A round that goes on either has consumed a token, comma included, or
    hands back an input on which every further round does the same. *)
Lemma loop_body_continue pl pl' :
  loop_body pl = Continue pl' ->
  (List.length pl' < List.length pl)%nat \/ loop_body pl' = Continue pl'.
Proof.
  unfold loop_body at 1. unfold eat_whitespace, extract_token.
  pose proof (skip_whitespace_length pl) as Hlen.
  destruct (negb (List.length (skip_whitespace pl) =? 0)%nat) eqn:Hmore;
    [|discriminate].
  destruct (memchr COMMA (skip_whitespace pl)) as [eot|] eqn:Hm.
  - destruct (find_reason reasons _) as [[s l]|]; [discriminate|].
    intros H. injection H as <-. left.
    apply memchr_bound in Hm.
    change (List.length (skipn (S eot) (skip_whitespace pl))
            < List.length pl)%nat.
    rewrite length_skipn. lia.
  - destruct (find_reason reasons _) as [[s l]|] eqn:Hf; [discriminate|].
    intros H. injection H as <-. right.
    unfold loop_body, eat_whitespace, extract_token.
    rewrite skip_whitespace_idem, Hmore, Hm, Hf. reflexivity.
Qed.

Lemma get_reason_string_bound n pl fuel r :
  (List.length pl <= n)%nat ->
  get_reason_string fuel this pl = Some r ->
  get_reason_string (S n) this pl = Some r.
Proof.
  revert pl fuel. induction n as [|n IH]; intros pl fuel Hn;
    (destruct fuel as [|fuel]; [discriminate|]);
    rewrite !get_reason_string_round;
    destruct (loop_body pl) as [s l|pl'|] eqn:Hb; try (intros H; exact H);
    intros H;
    (destruct (loop_body_continue pl pl' Hb) as [Hlt|Hstuck];
     [|rewrite (stuck_round_no_result this pl' Hstuck) in H; discriminate]).
  - lia.
  - apply (IH pl' fuel); [lia|assumption].
Qed.

(** Inputs on which the loop comes to its end: nothing but blanks and
    tabs, or nothing but blanks and tabs behind the last comma. *)
Lemma skip_whitespace_all ws :
  all_whitespace ws -> skip_whitespace ws = [].
Proof.
  induction 1 as [|c ws Hc _ IH]; simpl; [reflexivity|]. now rewrite Hc.
Qed.

Lemma skip_whitespace_before_comma pl ws :
  exists pl1,
    skip_whitespace (pl ++ COMMA :: ws) = pl1 ++ COMMA :: ws /\
    (List.length pl1 <= List.length pl)%nat.
Proof.
  induction pl as [|c pl IH]; simpl.
  - exists []. split; [reflexivity|simpl; lia].
  - destruct (is_whitespace c).
    + destruct IH as (pl1 & -> & Hl). exists pl1. split; [reflexivity|lia].
    + exists (c :: pl). split; [reflexivity|simpl; lia].
Qed.

Lemma extract_token_before_comma pl1 ws :
  exists tok rest,
    extract_token COMMA (pl1 ++ COMMA :: ws) = (true, tok, rest) /\
    (rest = ws \/
     exists pl2, rest = pl2 ++ COMMA :: ws /\
                 (List.length pl2 < List.length pl1)%nat).
Proof.
  induction pl1 as [|c pl1 IH].
  - exists [], ws. split; [reflexivity|now left].
  - destruct IH as (tok & rest & Hx & Hrest).
    unfold extract_token in *. cbn [app memchr].
    destruct (Ascii.eqb c COMMA).
    + exists [], (pl1 ++ COMMA :: ws). split; [reflexivity|].
      right. exists pl1. split; [reflexivity|simpl; lia].
    + destruct (memchr COMMA (pl1 ++ COMMA :: ws)) as [eot|];
        [|discriminate].
      injection Hx as Htok Hskip. cbn [option_map].
      exists (c :: tok), rest. split.
      * rewrite <- Htok, <- Hskip. reflexivity.
      * destruct Hrest as [->|(pl2 & -> & Hl)]; [now left|].
        right. exists pl2. split; [reflexivity|simpl; lia].
Qed.

Lemma closed_list_returns n pl ws :
  all_whitespace ws -> (List.length pl <= n)%nat ->
  exists r, get_reason_string (S (S n)) this (pl ++ COMMA :: ws) = Some r.
Proof.
  intros Hws. revert pl. induction n as [|n IH]; intros pl Hn;
    rewrite get_reason_string_round; unfold loop_body, eat_whitespace;
    destruct (skip_whitespace_before_comma pl ws) as (pl1 & -> & Hl1);
    (replace (negb (List.length (pl1 ++ COMMA :: ws) =? 0)%nat) with true
      by (rewrite length_app; simpl;
          now rewrite Nat.add_succ_r));
    destruct (extract_token_before_comma pl1 ws)
      as (tok & rest & -> & Hrest);
    (destruct (find_reason reasons _) as [[s l]|]; [now eexists|]);
    (destruct Hrest as [->|(pl2 & -> & Hl2)];
     [rewrite get_reason_string_round; unfold loop_body, eat_whitespace;
      rewrite (skip_whitespace_all ws Hws); now eexists|]).
  - lia.
  - apply IH. lia.
Qed.

End ReasonStringRounds.

(** Whenever [get_reason_string] returns, it returns TRUE with the
    string and the tag of one entry of the table. *)
Theorem get_reason_string_yields_table_entry :
  forall fuel this pl r,
    get_reason_string fuel this pl = Some r ->
    returned r = true /\ exists e, In e reasons /\ r = reason_of e.
Proof.
  induction fuel as [|fuel IH]; intros this pl r; [discriminate|].
  rewrite get_reason_string_round.
  destruct (loop_body pl) as [s l|pl'|] eqn:Hb.
  - intros H. injection H as <-. split; [reflexivity|].
    destruct (loop_body_return pl s l Hb) as (e & He & E).
    exists e. now split.
  - apply IH.
  - intros H. injection H as <-. split; [reflexivity|].
    exists reasons_0. split; [now left|reflexivity].
Qed.

Lemma get_reason_string_yields_table_entry_witness :
  let r := reason_of (nth 1 reasons reasons_0) in
  returned r = true /\ exists e, In e reasons /\ r = reason_of e.
Proof.
  apply (get_reason_string_yields_table_entry 3
           (imv_attestation_state_create 0 None)
           (chunk_create "fr , mn,de")).
  reflexivity.
Defined.

(** A call that returns does so within as many rounds of the loop as the
    input has bytes, plus one: where that many rounds yield nothing, no
    number of rounds does. *)
Theorem get_reason_string_rounds_bounded :
  forall this pl fuel r,
    get_reason_string fuel this pl = Some r ->
    get_reason_string (S (List.length pl)) this pl = Some r.
Proof.
  intros this pl fuel r.
  apply get_reason_string_bound. lia.
Qed.

Lemma get_reason_string_rounds_bounded_witness :
  get_reason_string 8 (imv_attestation_state_create 0 None)
    (chunk_create "fr , de")
  = Some (reason_of (nth 2 reasons reasons_0)).
Proof.
  apply (get_reason_string_rounds_bounded
           (imv_attestation_state_create 0 None)
           (chunk_create "fr , de") 2).
  reflexivity.
Defined.

(** An input of blanks and tabs only, the empty one included, yields the
    default entry in the first round. *)
Theorem blank_input_yields_default :
  forall this ws fuel,
    all_whitespace ws ->
    get_reason_string (S fuel) this ws = Some (reason_of reasons_0).
Proof.
  intros this ws fuel Hws. rewrite get_reason_string_round.
  unfold loop_body, eat_whitespace.
  now rewrite (skip_whitespace_all ws Hws).
Qed.

Lemma blank_input_yields_default_witness :
  get_reason_string 1 (imv_attestation_state_create 0 None)
    [SPACE; TAB; SPACE]
  = Some (reason_of reasons_0).
Proof.
  apply (blank_input_yields_default (imv_attestation_state_create 0 None)
           [SPACE; TAB; SPACE] 0).
  repeat constructor.
Defined.

(** When nothing but blanks and tabs follows the last comma of the input,
    the call returns, whatever the tokens are: with the entry of the first
    token that matches, or with the default entry when none does. *)
Theorem comma_terminated_list_returns :
  forall this pl ws,
    all_whitespace ws ->
    exists r,
      get_reason_string (S (S (List.length pl))) this (pl ++ COMMA :: ws)
      = Some r.
Proof.
  intros this pl ws Hws. now apply closed_list_returns.
Qed.

Lemma comma_terminated_list_returns_witness :
  exists r,
    get_reason_string 8 (imv_attestation_state_create 0 None)
      (chunk_create "fr, it" ++ COMMA :: [SPACE])
    = Some r.
Proof.
  apply (comma_terminated_list_returns (imv_attestation_state_create 0 None)
           (chunk_create "fr, it") [SPACE]).
  repeat constructor.
Defined.

(* ================================================================== *)
(** * Further properties of transaction_create                         *)
(* ================================================================== *)

Section TransactionInformational.

Variables ike_sa_t transaction_t : Type.
Variables ike_sa_init_create delete_ike_sa_create dead_peer_detection_create
  : ike_sa_t -> Z -> option transaction_t.

(** The INFORMATIONAL loop, started with no transaction: it has counted
    [k] payloads, at least one when there is any, and holds what
    [delete_ike_sa_create] built when an IKE delete payload was met. *)
Lemma informational_loop_result ike_sa message_id iterator payload_count :
  exists k,
    (k <= List.length iterator)%nat /\
    (iterator <> [] -> (1 <= k)%nat) /\
    informational_loop delete_ike_sa_create ike_sa message_id iterator
      payload_count NULL
    = ((payload_count + Z.of_nat k) mod 2 ^ 32,
       if existsb is_ike_delete iterator
       then delete_ike_sa_create ike_sa message_id else NULL)
    \/ (k = 0%nat /\ iterator = [] /\
        informational_loop delete_ike_sa_create ike_sa message_id iterator
          payload_count NULL = (payload_count, NULL)).
Proof.
  revert payload_count.
  induction iterator as [|current iterator IH]; intros payload_count.
  - exists 0%nat. right. repeat split.
  - assert (Hnext : forall k',
        (k' <= List.length iterator)%nat ->
        informational_loop delete_ike_sa_create ike_sa message_id iterator
          ((payload_count + 1) mod 2 ^ 32) NULL
        = (((payload_count + 1) mod 2 ^ 32 + Z.of_nat k') mod 2 ^ 32,
           if existsb is_ike_delete iterator
           then delete_ike_sa_create ike_sa message_id else NULL) ->
        exists k,
          (k <= List.length (current :: iterator))%nat /\
          (1 <= k)%nat /\
          informational_loop delete_ike_sa_create ike_sa message_id iterator
            ((payload_count + 1) mod 2 ^ 32) NULL
          = ((payload_count + Z.of_nat k) mod 2 ^ 32,
             if existsb is_ike_delete iterator
             then delete_ike_sa_create ike_sa message_id else NULL)).
    { intros k' Hk' E. exists (S k'). split; [simpl; lia|]. split; [lia|].
      rewrite E. f_equal. rewrite Zplus_mod_idemp_l. f_equal. lia. }
    assert (Hrest : exists k,
          (k <= List.length (current :: iterator))%nat /\
          (1 <= k)%nat /\
          informational_loop delete_ike_sa_create ike_sa message_id iterator
            ((payload_count + 1) mod 2 ^ 32) NULL
          = ((payload_count + Z.of_nat k) mod 2 ^ 32,
             if existsb is_ike_delete iterator
             then delete_ike_sa_create ike_sa message_id else NULL)).
    { destruct (IH ((payload_count + 1) mod 2 ^ 32))
        as (k' & [(Hk' & _ & E)|(-> & -> & E)]).
      - now apply (Hnext k').
      - exists 1%nat. split; [simpl; lia|]. split; [lia|].
        rewrite E. reflexivity. }
    destruct Hrest as (k & Hk & Hk1 & E).
    cbn [informational_loop existsb].
    destruct (is_ike_delete current) eqn:Hc.
    + assert (Hcur : current = DELETE PROTO_IKE).
      { destruct current as [? ?|[| | |?]|?]; try discriminate. reflexivity. }
      subst current. cbn [orb].
      destruct (delete_ike_sa_create ike_sa message_id) as [t|] eqn:Hd.
      * exists 1%nat. left. split; [simpl; lia|]. split; [lia|].
        reflexivity.
      * exists k. left. split; [assumption|]. split; [intros _; assumption|].
        unfold NULL in *. rewrite E.
        now destruct (existsb is_ike_delete iterator).
    + exists k. left. split; [assumption|]. split; [intros _; assumption|].
      cbn [orb].
      replace (match current with
               | DELETE PROTO_IKE => delete_ike_sa_create ike_sa message_id
               | _ => NULL
               end) with (@NULL transaction_t);
        [exact E|].
      destruct current as [? ?|[| | |?]|?]; try reflexivity. discriminate.
Qed.

End TransactionInformational.

(** An INFORMATIONAL request with at least one payload (and fewer than
    2^32 of them, the width of the counter) yields what
    [delete_ike_sa_create] builds for this IKE_SA and message id when one
    of its payloads is a delete payload for the IKE protocol, and NULL
    otherwise: the dead peer detection is for the empty message only. *)
Theorem transaction_create_informational :
  forall (ike_sa_t transaction_t : Type)
         (ike_sa_init_create delete_ike_sa_create dead_peer_detection_create
            : ike_sa_t -> Z -> option transaction_t)
         (ike_sa : ike_sa_t) (message_id : Z) (iterator : list payload_t),
    iterator <> [] ->
    Z.of_nat (List.length iterator) < 2 ^ 32 ->
    transaction_create ike_sa_init_create delete_ike_sa_create
      dead_peer_detection_create ike_sa
      (mk_message true message_id INFORMATIONAL iterator)
    = if existsb is_ike_delete iterator
      then delete_ike_sa_create ike_sa message_id else NULL.
Proof.
  intros ike_sa_t transaction_t c1 c2 c3 ike_sa message_id iterator Hne Hlen.
  unfold transaction_create.
  cbn [get_request negb get_message_id get_exchange_type payloads].
  destruct (informational_loop_result ike_sa_t transaction_t c2 ike_sa
              message_id iterator 0)
    as (k & [(Hk & Hk1 & ->)|(_ & -> & _)]); [|contradiction].
  specialize (Hk1 Hne).
  rewrite Z.add_0_l, Z.mod_small by lia.
  destruct (Z.eqb_spec (Z.of_nat k) 0); [lia|reflexivity].
Qed.

Lemma transaction_create_informational_witness :
  let create :=
    transaction_create (fun ike_sa message_id : Z => Some (1, message_id))
      (fun ike_sa message_id : Z => Some (2, message_id))
      (fun ike_sa message_id : Z => Some (3, message_id)) in
  create 9 (mk_message true 4 INFORMATIONAL
              [NOTIFY REKEY_SA PROTO_ESP; DELETE PROTO_ESP; DELETE PROTO_IKE])
  = Some (2, 4) /\
  create 9 (mk_message true 4 INFORMATIONAL [DELETE PROTO_AH]) = NULL.
Proof.
  split.
  - apply (transaction_create_informational Z (Z * Z)%type
             (fun ike_sa message_id : Z => Some (1, message_id))
             (fun ike_sa message_id : Z => Some (2, message_id))
             (fun ike_sa message_id : Z => Some (3, message_id))
             9 4
             [NOTIFY REKEY_SA PROTO_ESP; DELETE PROTO_ESP; DELETE PROTO_IKE]).
    + discriminate.
    + reflexivity.
  - apply (transaction_create_informational Z (Z * Z)%type
             (fun ike_sa message_id : Z => Some (1, message_id))
             (fun ike_sa message_id : Z => Some (2, message_id))
             (fun ike_sa message_id : Z => Some (3, message_id))
             9 4 [DELETE PROTO_AH]).
    + discriminate.
    + reflexivity.
Defined.

(** A transaction comes only out of an IKE_SA_INIT or an INFORMATIONAL
    request, and it is the one the matching constructor built for the
    IKE_SA and the message id of the request. *)
Theorem transaction_create_some :
  forall (ike_sa_t transaction_t : Type)
         (ike_sa_init_create delete_ike_sa_create dead_peer_detection_create
            : ike_sa_t -> Z -> option transaction_t)
         (ike_sa : ike_sa_t) (request : message_t) (t : transaction_t),
    transaction_create ike_sa_init_create delete_ike_sa_create
      dead_peer_detection_create ike_sa request = Some t ->
    get_request request = true /\
    ((get_exchange_type request = IKE_SA_INIT /\
      ike_sa_init_create ike_sa (get_message_id request) = Some t) \/
     (get_exchange_type request = INFORMATIONAL /\
      (delete_ike_sa_create ike_sa (get_message_id request) = Some t \/
       dead_peer_detection_create ike_sa (get_message_id request)
       = Some t))).
Proof.
  intros ike_sa_t transaction_t c1 c2 c3 ike_sa request t.
  unfold transaction_create.
  destruct (get_request request); cbn [negb]; [|discriminate].
  intros H. split; [reflexivity|].
  destruct (get_exchange_type request) eqn:Htype.
  - left. now split.
  - discriminate.
  - rewrite create_child_sa_loop_null in H. discriminate.
  - right. split; [reflexivity|].
    destruct (informational_loop_result ike_sa_t transaction_t c2 ike_sa
                (get_message_id request) (payloads request) 0)
      as (k & [(_ & _ & E)|(_ & _ & E)]); rewrite E in H.
    + destruct (_ =? 0); [now right|].
      destruct (existsb is_ike_delete (payloads request));
        [now left|discriminate].
    + cbn in H. now right.
  - discriminate.
Qed.

Lemma transaction_create_some_witness :
  let request := mk_message true 4 INFORMATIONAL [] in
  get_request request = true /\
  ((get_exchange_type request = IKE_SA_INIT /\
    Some (1, get_message_id request) = Some (3, 4)) \/
   (get_exchange_type request = INFORMATIONAL /\
    (Some (2, get_message_id request) = Some (3, 4) \/
     Some (3, get_message_id request) = Some (3, 4)))).
Proof.
  apply (transaction_create_some Z (Z * Z)%type
           (fun ike_sa message_id : Z => Some (1, message_id))
           (fun ike_sa message_id : Z => Some (2, message_id))
           (fun ike_sa message_id : Z => Some (3, message_id))
           9 (mk_message true 4 INFORMATIONAL []) (3, 4)).
  reflexivity.
Defined.

(* ================================================================== *)
(** * The trailing-blank loop of get_reason_string                     *)
(* ================================================================== *)

Section TrailingBlanks.

Implicit Types (ptr sfx : chunk_t).

(** The loop reads only the bytes below the length it is given. *)
Lemma eat_trailing_prefix ptr sfx len :
  (len <= List.length ptr)%nat ->
  eat_trailing (ptr ++ sfx) len = eat_trailing ptr len.
Proof.
  induction len as [|len IH]; intros Hlen; [reflexivity|]. simpl.
  rewrite app_nth1 by lia.
  destruct (Ascii.eqb (nth len ptr Ascii.zero) SPACE); [|reflexivity].
  apply IH. lia.
Qed.

Lemma eat_trailing_le ptr len : (eat_trailing ptr len <= len)%nat.
Proof.
  induction len as [|len IH]; simpl; [lia|].
  destruct (Ascii.eqb (nth len ptr Ascii.zero) SPACE); lia.
Qed.

Lemma trim_trailing_snoc ptr c :
  trim_trailing (ptr ++ [c])
  = if Ascii.eqb c SPACE then trim_trailing ptr else ptr ++ [c].
Proof.
  unfold trim_trailing. rewrite length_app. cbn [List.length].
  rewrite Nat.add_1_r. cbn [eat_trailing].
  rewrite app_nth2, Nat.sub_diag by lia. cbn [nth].
  destruct (Ascii.eqb c SPACE).
  - rewrite eat_trailing_prefix by lia.
    rewrite firstn_app.
    pose proof (eat_trailing_le ptr (List.length ptr)) as Hle.
    replace (eat_trailing ptr (List.length ptr) - List.length ptr)%nat
      with 0%nat by lia.
    cbn [firstn]. now rewrite app_nil_r.
  - replace (S (List.length ptr)) with (List.length (ptr ++ [c]))
      by (rewrite length_app; simpl; lia).
    apply firstn_all.
Qed.

End TrailingBlanks.

(** The trailing loop of [get_reason_string] removes the blanks at the
    end of the token and nothing else: the token is what the loop leaves
    followed by blanks only, and what it leaves is empty or ends in a byte
    that is not a blank (a tab, for one, stays). *)
Theorem trim_trailing_removes_trailing_blanks :
  forall pref_lang,
    exists k,
      pref_lang = trim_trailing pref_lang ++ repeat SPACE k /\
      (trim_trailing pref_lang = [] \/
       last (trim_trailing pref_lang) Ascii.zero <> SPACE).
Proof.
  induction pref_lang as [|c ptr IH] using rev_ind.
  - exists 0%nat. split; [reflexivity|now left].
  - rewrite trim_trailing_snoc.
    destruct (Ascii.eqb_spec c SPACE) as [->|NE].
    + destruct IH as (k & Hk & Hlast). exists (S k). split; [|assumption].
      rewrite Hk at 1. rewrite <- app_assoc. f_equal.
      symmetry. apply (repeat_cons k).
    + exists 0%nat. split; [now rewrite app_nil_r|].
      right. now rewrite last_last.
Qed.

(* ================================================================== *)
(** * Ids whose issuances are all checked off                          *)
(* ================================================================== *)

(** Whatever the calls on a state object since its creation, wrap-around
    of the counter included: an id with as many successful check-offs as
    issuances is "not found", and its check-off leaves the output
    parameters and the state object as they were. *)
Theorem check_off_file_balanced_id :
  forall cid pi calls id0 f0 d0,
    let log := fst (run calls (imv_attestation_state_create cid pi)) in
    let this := snd (run calls (imv_attestation_state_create cid pi)) in
    count_occ Z.eq_dec (checked_off_ids log) id0
    = count_occ Z.eq_dec (issued_ids log) id0 ->
    check_off_file_meas_request this id0 f0 d0
    = (mk_check_off_result false f0 d0, this).
Proof.
  intros cid pi calls id0 f0 d0 log this H.
  apply check_off_absent. apply balanced_id_not_pending. now right.
Qed.

Lemma check_off_file_balanced_id_witness :
  let calls := [Call_add_file_meas_request 42 true;
                Call_add_file_meas_request 7 false;
                Call_check_off_file_meas_request 2 0 false;
                Call_check_off_file_meas_request 2 0 false] in
  let this := snd (run calls (imv_attestation_state_create 0 None)) in
  check_off_file_meas_request this 2 5 true
  = (mk_check_off_result false 5 true, this).
Proof.
  apply (check_off_file_balanced_id 0 None
           [Call_add_file_meas_request 42 true;
            Call_add_file_meas_request 7 false;
            Call_check_off_file_meas_request 2 0 false;
            Call_check_off_file_meas_request 2 0 false] 2 5 true).
  reflexivity.
Defined.
